(** * atree: storage identifiers, base storage, the persistent slab storage
      and the default digester.

    A shallow embedding of the storage layer (storage ids,
    [InMemBaseStorage], [PersistentSlabStorage]) and of the default digester
    ([basicDigester]).

    Conventions.
    - A Go [[8]byte] array is an 8-tuple of [byte]; [uint64] values are
      integers in [Z] with the wrap-around modulo [2^64] written out.
    - A Go [map] is a [gmap]; a [nil] interface value ([Slab], [error]) and a
      [nil] slice are [None].
    - A method with a pointer receiver takes the receiver's state and returns
      the new state next to its results. *)

From Stdlib Require Import ZArith Lia List.
From Stdlib Require Import Strings.Byte.
From stdpp Require Import base decidable countable gmap list sorting.

Local Open Scope Z_scope.

(** ** Bytes and big-endian words *)

Module Bytes.

#[global] Instance byte_eq_dec : EqDecision byte := Byte.byte_eq_dec.

#[global] Instance byte_countable : Countable byte :=
  inj_countable Byte.to_N Byte.of_N Byte.of_to_N.

(** [uint64(b)] for a byte [b]. *)
Definition byte_to_Z (b : byte) : Z := Z.of_N (Byte.to_N b).

(** [byte(v)] for an unsigned [v]: the low 8 bits. *)
Definition byte_of_Z (v : Z) : byte :=
  match Byte.of_N (Z.to_N (v mod 256)) with
  | Some b => b
  | None => x00
  end.

(** [[8]byte]. *)
Definition Bytes8 : Type := (byte * byte * byte * byte * byte * byte * byte * byte)%type.

#[global] Instance Bytes8_eq_dec : EqDecision Bytes8.
Proof. unfold Bytes8. apply _. Defined.

#[global] Instance Bytes8_countable : Countable Bytes8.
Proof. unfold Bytes8. apply _. Defined.

Definition uint64_modulus : Z := 2 ^ 64.

(** [binary.BigEndian.Uint64]: the unsigned value of eight bytes, the first
    byte being the most significant. *)
Definition Uint64 (b : Bytes8) : Z :=
  let '(b0, b1, b2, b3, b4, b5, b6, b7) := b in
  ((((((byte_to_Z b0 * 256 + byte_to_Z b1) * 256 + byte_to_Z b2) * 256
      + byte_to_Z b3) * 256 + byte_to_Z b4) * 256 + byte_to_Z b5) * 256
      + byte_to_Z b6) * 256 + byte_to_Z b7.

(** [binary.BigEndian.PutUint64] into a fresh array: byte [k] receives
    [byte(v >> (56 - 8k))]. *)
Definition PutUint64 (v : Z) : Bytes8 :=
  (byte_of_Z (v / 2 ^ 56), byte_of_Z (v / 2 ^ 48),
   byte_of_Z (v / 2 ^ 40), byte_of_Z (v / 2 ^ 32),
   byte_of_Z (v / 2 ^ 24), byte_of_Z (v / 2 ^ 16),
   byte_of_Z (v / 2 ^ 8), byte_of_Z v).

(** [uint64] addition of one: wraps to zero at [2^64 - 1]. *)
Definition uint64_succ (v : Z) : Z := (v + 1) mod uint64_modulus.

End Bytes.

(** ** Storage identifiers *)

Module StorageIDs.
Import Bytes.

Definition Address : Type := Bytes8.
Definition StorageIndex : Type := Bytes8.

Record StorageID : Type := NewStorageID {
  id_Address : Address;
  id_Index : StorageIndex;
}.

#[global] Instance StorageID_eq_dec : EqDecision StorageID.
Proof. solve_decision. Defined.

#[global] Instance StorageID_countable : Countable StorageID :=
  inj_countable' (fun id => (id_Address id, id_Index id))
                 (fun p => NewStorageID p.1 p.2)
                 (fun id => match id with NewStorageID _ _ => eq_refl end).

Definition zero8 : Bytes8 := (x00, x00, x00, x00, x00, x00, x00, x00).

Definition AddressUndefined : Address := zero8.
Definition StorageIndexUndefined : StorageIndex := zero8.
Definition StorageIDUndefined : StorageID := NewStorageID zero8 zero8.

Definition AddressAsUint64 (id : StorageID) : Z := Uint64 (id_Address id).
Definition IndexAsUint64 (id : StorageID) : Z := Uint64 (id_Index id).

(** [StorageIndex.Next]: [i+1] is a [uint64] addition. *)
Definition Next (index : StorageIndex) : StorageIndex :=
  let i := Uint64 index in
  PutUint64 (uint64_succ i).

(** The comparison closure handed to [sort.Slice] in [sortedOwnedDeltaKeys]. *)
Definition less (a b : StorageID) : bool :=
  if decide (id_Address a = id_Address b)
  then IndexAsUint64 a <? IndexAsUint64 b
  else AddressAsUint64 a <? AddressAsUint64 b.

(** Ascending order of handles: by address, then by index, both read as
    big-endian unsigned integers. *)
Definition handle_lt (a b : StorageID) : Prop :=
  AddressAsUint64 a < AddressAsUint64 b \/
  (AddressAsUint64 a = AddressAsUint64 b /\ IndexAsUint64 a < IndexAsUint64 b).

Section sorting.
Context {A : Type}.

  (** [sort.Slice(x, less)] belongs to the Go standard library.  It is
      modelled by an insertion sort that consults the same [less] callback;
      [sort_Slice_unique] below shows that on the inputs that occur here
      (pairwise distinct keys under a strict total order) no other sorting
      procedure can return a different slice. *)
Fixpoint insert_by (lt : A -> A -> bool) (x : A) (l : list A) : list A :=
    match l with
    | [] => [x]
    | y :: l' => if lt y x then y :: insert_by lt x l' else x :: l
    end.

Definition sort_Slice (lt : A -> A -> bool) (l : list A) : list A :=
    foldr (insert_by lt) [] l.

End sorting.

End StorageIDs.

(** ** Base storage *)

Module BaseStore.
Import Bytes StorageIDs.

(** A Go [[]byte]: [None] is the [nil] slice. *)
Abbreviation slice_byte := (option (list byte)).

Definition len (b : slice_byte) : Z :=
  match b with
  | None => 0
  | Some l => Z.of_nat (length l)
  end.

(** Addition on Go's 64-bit [int]. *)
Definition int_add (a b : Z) : Z := (a + b + 2 ^ 63) mod 2 ^ 64 - 2 ^ 63.

(** The [BaseStorage] interface, without the usage reporter.  Every method
    has a pointer receiver: it takes the storage and returns it. *)
Class BaseStorage (error B : Type) : Type := {
  base_Store : StorageID -> slice_byte -> B -> option error * B;
  base_Retrieve : StorageID -> B -> (slice_byte * bool * option error) * B;
  base_Remove : StorageID -> B -> option error * B;
  base_GenerateStorageID : Address -> B -> (StorageID * option error) * B;
  base_SegmentCounts : B -> Z;
}.

Record InMemBaseStorage : Type := mkInMemBaseStorage {
  segments : gmap StorageID slice_byte;
  storageIndex : gmap Address StorageIndex;
  bytesRetrieved : Z;
  bytesStored : Z;
  segmentsReturned : gset StorageID;
  segmentsUpdated : gset StorageID;
  segmentsTouched : gset StorageID;
}.

Definition NewInMemBaseStorageFromMap (segs : gmap StorageID slice_byte)
  : InMemBaseStorage :=
  {| segments := segs; storageIndex := ∅; bytesRetrieved := 0;
     bytesStored := 0; segmentsReturned := ∅; segmentsUpdated := ∅;
     segmentsTouched := ∅ |}.

Definition NewInMemBaseStorage : InMemBaseStorage :=
  NewInMemBaseStorageFromMap ∅.

Module InMem.
Section ops.
Context {error : Type}.

Definition Retrieve (id : StorageID) (s : InMemBaseStorage)
    : (slice_byte * bool * option error) * InMemBaseStorage :=
    let '(seg, ok) :=
      match segments s !! id with
      | Some seg => (seg, true)
      | None => (None, false)
      end in
    ((seg, ok, None),
     {| segments := segments s;
        storageIndex := storageIndex s;
        bytesRetrieved := int_add (bytesRetrieved s) (len seg);
        bytesStored := bytesStored s;
        segmentsReturned := {[id]} ∪ segmentsReturned s;
        segmentsUpdated := segmentsUpdated s;
        segmentsTouched := {[id]} ∪ segmentsTouched s |}).

Definition Store (id : StorageID) (data : slice_byte) (s : InMemBaseStorage)
    : option error * InMemBaseStorage :=
    (None,
     {| segments := <[id := data]> (segments s);
        storageIndex := storageIndex s;
        bytesRetrieved := bytesRetrieved s;
        bytesStored := int_add (bytesStored s) (len data);
        segmentsReturned := segmentsReturned s;
        segmentsUpdated := {[id]} ∪ segmentsUpdated s;
        segmentsTouched := {[id]} ∪ segmentsTouched s |}).

Definition Remove (id : StorageID) (s : InMemBaseStorage)
    : option error * InMemBaseStorage :=
    (None,
     {| segments := delete id (segments s);
        storageIndex := storageIndex s;
        bytesRetrieved := bytesRetrieved s;
        bytesStored := bytesStored s;
        segmentsReturned := segmentsReturned s;
        segmentsUpdated := {[id]} ∪ segmentsUpdated s;
        segmentsTouched := {[id]} ∪ segmentsTouched s |}).

  (** [s.storageIndex[address]] is the zero index when the address has no
      entry yet. *)
Definition GenerateStorageID (address : Address) (s : InMemBaseStorage)
    : (StorageID * option error) * InMemBaseStorage :=
    let index := default StorageIndexUndefined (storageIndex s !! address) in
    let nextIndex := Next index in
    ((NewStorageID address nextIndex, None),
     {| segments := segments s;
        storageIndex := <[address := nextIndex]> (storageIndex s);
        bytesRetrieved := bytesRetrieved s;
        bytesStored := bytesStored s;
        segmentsReturned := segmentsReturned s;
        segmentsUpdated := segmentsUpdated s;
        segmentsTouched := segmentsTouched s |}).

Definition SegmentCounts (s : InMemBaseStorage) : Z :=
    Z.of_nat (size (segments s)).
End ops.
End InMem.

#[global] Instance InMemBaseStorage_BaseStorage {error : Type}
  : BaseStorage error InMemBaseStorage :=
  {| base_Store := InMem.Store;
     base_Retrieve := InMem.Retrieve;
     base_Remove := InMem.Remove;
     base_GenerateStorageID := InMem.GenerateStorageID;
     base_SegmentCounts := InMem.SegmentCounts |}.

(** *** Observing the calls made on a base storage

    [Logged error B] is the base storage [B] together with the list of calls
    it has received, oldest first, each with the error it returned.  Every
    call is passed to [B] unchanged. *)

Inductive BaseCall : Type :=
  | CallStore (id : StorageID) (data : slice_byte)
  | CallRetrieve (id : StorageID)
  | CallRemove (id : StorageID)
  | CallGenerateStorageID (address : Address).

Record Logged (error B : Type) : Type := mkLogged {
  inner : B;
  calls : list (BaseCall * option error);
}.
Arguments mkLogged {error B} _ _.
Arguments inner {error B} _.
Arguments calls {error B} _.

Section logged.
Context {error B : Type} `{!BaseStorage error B}.

Definition record_call (c : BaseCall) (l : Logged error B) (r : option error * B)
  : option error * Logged error B :=
  (r.1, mkLogged r.2 (calls l ++ [(c, r.1)])).

#[global] Instance Logged_BaseStorage : BaseStorage error (Logged error B) :=
  {| base_Store id data l :=
       record_call (CallStore id data) l (base_Store id data (inner l));
     base_Retrieve id l :=
       let '(r, b) := base_Retrieve id (inner l) in
       (r, mkLogged b (calls l ++ [(CallRetrieve id, r.2)]));
     base_Remove id l :=
       record_call (CallRemove id) l (base_Remove id (inner l));
     base_GenerateStorageID a l :=
       let '(r, b) := base_GenerateStorageID a (inner l) in
       (r, mkLogged b (calls l ++ [(CallGenerateStorageID a, r.2)]));
     base_SegmentCounts l := base_SegmentCounts (inner l) |}.
End logged.

End BaseStore.

(** ** The persistent slab storage *)

Module Persistent.
Import Bytes StorageIDs BaseStore.

Record PersistentSlabStorage (B Slab : Type) : Type := mkPersistentSlabStorage {
  baseStorage : B;
  cache : gmap StorageID (option Slab);
  deltas : gmap StorageID (option Slab);
  tempStorageIndex : Z;
  autoCommit : bool;
}.
Arguments mkPersistentSlabStorage {B Slab} _ _ _ _ _.
Arguments baseStorage {B Slab} _.
Arguments cache {B Slab} _.
Arguments deltas {B Slab} _.
Arguments tempStorageIndex {B Slab} _.
Arguments autoCommit {B Slab} _.

(** One element of the [results] channel of [FastCommit]. *)
Record encodedSlabs (error : Type) : Type := mkEncodedSlabs {
  storageID : StorageID;
  data : slice_byte;
  err : option error;
}.
Arguments mkEncodedSlabs {error} _ _ _.
Arguments storageID {error} _.
Arguments data {error} _.
Arguments err {error} _.

Section storage.
  (** [error] and [Slab] are Go interfaces; a value of either may be [nil],
      which is [None]. *)
Context {error Slab B : Type} `{!BaseStorage error B}.

  (** [Encode(slab, s.cborEncMode)] and
      [DecodeSlab(id, data, s.cborDecMode, s.DecodeStorable, s.DecodeTypeInfo)]
      are the slab codec, defined in other files of the package; the storage
      calls them with its own fixed modes and decoders. *)
Variable Encode : option Slab -> slice_byte * option error.
Variable DecodeSlab : StorageID -> slice_byte -> option Slab * option error.

Abbreviation State := (PersistentSlabStorage B Slab).

Definition set_baseStorage (b : B) (s : State) : State :=
    mkPersistentSlabStorage b (cache s) (deltas s) (tempStorageIndex s) (autoCommit s).
Definition set_cache (c : gmap StorageID (option Slab)) (s : State) : State :=
    mkPersistentSlabStorage (baseStorage s) c (deltas s) (tempStorageIndex s) (autoCommit s).
Definition set_deltas (d : gmap StorageID (option Slab)) (s : State) : State :=
    mkPersistentSlabStorage (baseStorage s) (cache s) d (tempStorageIndex s) (autoCommit s).
Definition set_tempStorageIndex (t : Z) (s : State) : State :=
    mkPersistentSlabStorage (baseStorage s) (cache s) (deltas s) t (autoCommit s).

Definition NewPersistentSlabStorage (base : B) : State :=
    mkPersistentSlabStorage base ∅ ∅ 0 false.

Definition WithAutoCommit (st : State) : State :=
    mkPersistentSlabStorage (baseStorage st) (cache st) (deltas st)
                            (tempStorageIndex st) true.

  (** [m[id]] on a Go map of interface values: [nil] when [id] has no entry. *)
Definition index_map {V : Type} (m : gmap StorageID (option V)) (id : StorageID)
    : option V :=
    match m !! id with
    | Some v => v
    | None => None
    end.

Definition GenerateStorageID (address : Address) (s : State)
    : (StorageID * option error) * State :=
    if decide (address = AddressUndefined) then
      let t := uint64_succ (tempStorageIndex s) in
      let idx := PutUint64 t in
      ((NewStorageID address idx, None), set_tempStorageIndex t s)
    else
      let '(r, b) := base_GenerateStorageID address (baseStorage s) in
      (r, set_baseStorage b s).

  (** The keys kept by the [range] loop of [sortedOwnedDeltaKeys], for the
      iteration order [ks]. *)
Definition ownedKeys (ks : list StorageID) : list StorageID :=
    filter (fun k => id_Address k <> AddressUndefined) ks.

  (** Go iterates over a map in an unspecified order; [map_to_list] is one
      such order, and [sortedOwnedDeltaKeys_any_order] shows that the result
      does not depend on it. *)
Definition sortedOwnedDeltaKeys (s : State) : list StorageID :=
    let keysWithOwners := ownedKeys (map_to_list (deltas s)).*1 in
    sort_Slice less keysWithOwners.

Fixpoint Commit_loop (keysWithOwners : list StorageID) (s : State)
    : option error * State :=
    match keysWithOwners with
    | [] => (None, s)
    | id :: rest =>
        let slab := index_map (deltas s) id in
        match slab with
        | None =>
            let '(err, b) := base_Remove id (baseStorage s) in
            let s := set_baseStorage b s in
            match err with
            | Some e => (Some e, s)
            | None => Commit_loop rest s
            end
        | Some _ =>
            let '(data, err) := Encode slab in
            match err with
            | Some e => (Some e, s)
            | None =>
                let '(err, b) := base_Store id data (baseStorage s) in
                let s := set_baseStorage b s in
                match err with
                | Some e => (Some e, s)
                | None => Commit_loop rest (set_cache (<[id := slab]> (cache s)) s)
                end
            end
        end
    end.

Definition Commit (s : State) : option error * State :=
    let keysWithOwners := sortedOwnedDeltaKeys s in
    let '(err, s) := Commit_loop keysWithOwners s in
    match err with
    | Some e => (Some e, s)
    | None => (None, set_deltas ∅ s)
    end.

  (** The body of one [encoder] worker for the job [id]. *)
Definition encoder (s : State) (id : StorageID) : encodedSlabs error :=
    let slab := index_map (deltas s) id in
    match slab with
    | None => mkEncodedSlabs id None None
    | Some _ =>
        let '(data, err) := Encode slab in
        mkEncodedSlabs id data err
    end.

  (** The loop that receives from [results]. *)
Fixpoint FastCommit_receive (results : list (encodedSlabs error))
      (encSlabByID : gmap StorageID slice_byte)
    : error + gmap StorageID slice_byte :=
    match results with
    | [] => inr encSlabByID
    | result :: rest =>
        match err result with
        | Some e => inl e
        | None =>
            FastCommit_receive rest
              (<[storageID result := data result]> encSlabByID)
        end
    end.

  (** The loop that passes the encoded slabs to the base storage. *)
Fixpoint FastCommit_apply (keysWithOwners : list StorageID)
      (encSlabByID : gmap StorageID slice_byte) (s : State)
    : option error * State :=
    match keysWithOwners with
    | [] => (None, s)
    | id :: rest =>
        let data := index_map encSlabByID id in
        match data with
        | None =>
            let '(err, b) := base_Remove id (baseStorage s) in
            let s := set_baseStorage b s in
            match err with
            | Some e => (Some e, s)
            | None => FastCommit_apply rest encSlabByID s
            end
        | Some _ =>
            let '(err, b) := base_Store id data (baseStorage s) in
            let s := set_baseStorage b s in
            match err with
            | Some e => (Some e, s)
            | None =>
                FastCommit_apply rest encSlabByID
                  (set_cache (<[id := index_map (deltas s) id]> (cache s)) s)
            end
        end
    end.

  (** [FastCommit(numWorkers)].  The workers only read [s.deltas] and call
      [Encode]; what the caller observes of them is the order in which their
      results arrive on the channel.  That order is the parameter [arrival]:
      the handles of the jobs, in the order their results are received.  The
      caller receives [len(keysWithOwners)] results.  Without a worker nothing
      is ever sent, and the first receive blocks for ever: the call does not
      return, which is [None]. *)
Definition FastCommit (numWorkers : Z) (arrival : list StorageID) (s : State)
    : option (option error * State) :=
    let keysWithOwners := sortedOwnedDeltaKeys s in
    if decide (numWorkers <= 0 /\ keysWithOwners <> []) then None
    else
      let results := take (length keysWithOwners) (encoder s <$> arrival) in
      match FastCommit_receive results ∅ with
      | inl e => Some (Some e, s)
      | inr encSlabByID =>
          let '(err, s) := FastCommit_apply keysWithOwners encSlabByID s in
          match err with
          | Some e => Some (Some e, s)
          | None => Some (None, set_deltas ∅ s)
          end
      end.

Definition DropDeltas (s : State) : State := set_deltas ∅ s.
Definition DropCache (s : State) : State := set_cache ∅ s.

  (** [slab != nil]. *)
Definition not_nil {V : Type} (v : option V) : bool :=
    match v with Some _ => true | None => false end.

Definition Retrieve (id : StorageID) (s : State)
    : (option Slab * bool * option error) * State :=
    match deltas s !! id with
    | Some slab => ((slab, not_nil slab, None), s)
    | None =>
        match cache s !! id with
        | Some slab => ((slab, true, None), s)
        | None =>
            let '((data, ok, err), b) := base_Retrieve id (baseStorage s) in
            let s := set_baseStorage b s in
            match err with
            | Some e => ((None, false, Some e), s)
            | None =>
                let '(slab, err) := DecodeSlab id data in
                match err with
                | None => ((slab, ok, err), set_cache (<[id := slab]> (cache s)) s)
                | Some _ => ((slab, ok, err), s)
                end
            end
        end
    end.

Definition Store (id : StorageID) (slab : option Slab) (s : State)
    : option error * State :=
    if autoCommit s then
      let '(data, err) := Encode slab in
      match err with
      | Some e => (Some e, s)
      | None =>
          let '(err, b) := base_Store id data (baseStorage s) in
          let s := set_baseStorage b s in
          match err with
          | Some e => (Some e, s)
          | None => (None, set_cache (<[id := slab]> (cache s)) s)
          end
      end
    else
      (None, set_deltas (<[id := slab]> (deltas s)) s).

Definition Remove (id : StorageID) (s : State) : option error * State :=
    let '(err, s) :=
      if autoCommit s then
        let '(err, b) := base_Remove id (baseStorage s) in
        (err, set_baseStorage b s)
      else (None, s) in
    match err with
    | Some e => (Some e, s)
    | None => (None, set_deltas (<[id := None]> (deltas s)) s)
    end.

Definition Count (s : State) : Z := base_SegmentCounts (baseStorage s).

(** *** Vocabulary for the statements about [Commit] *)

(** The base-storage call a commit makes for the key [id] of the deltas [d]:
    a remove for a tombstone, a store of the encoded slab otherwise. *)
Definition commit_call (d : gmap StorageID (option Slab)) (id : StorageID)
  : BaseCall :=
  match index_map d id with
  | None => CallRemove id
  | Some slab => CallStore id (Encode (Some slab)).1
  end.

(** The encoding of the delta [id] succeeds (a tombstone is not encoded). *)
Definition encodes (d : gmap StorageID (option Slab)) (id : StorageID) : Prop :=
  match index_map d id with
  | None => True
  | Some slab => (Encode (Some slab)).2 = None
  end.

(** A call that returned no error. *)
Definition call_ok (c : BaseCall * option error) : Prop := c.2 = None.

(** How a run of the commit loop ended: [cs] are the calls it made, [n] the
    number of keys it made a call for. *)
Definition loop_outcome (d : gmap StorageID (option Slab))
    (keys : list StorageID) (err : option error)
    (cs : list (BaseCall * option error)) (n : nat) : Prop :=
  match err with
  | None => n = length keys /\ Forall call_ok cs /\ Forall (encodes d) keys
  | Some e =>
      (exists cs0 c, cs = cs0 ++ [c] /\ c.2 = Some e /\ Forall call_ok cs0) \/
      (Forall call_ok cs /\
       exists id slab, keys !! n = Some id /\ index_map d id = Some slab /\
                       (Encode (Some slab)).2 = Some e)
  end.



(** A store or remove call, one at a time, as a request to the storage. *)
Inductive Op : Type :=
  | OpStore (id : StorageID) (slab : option Slab)
  | OpRemove (id : StorageID).

Definition run_Op (o : Op) (s : State) : option error * State :=
  match o with
  | OpStore id slab => Store id slab s
  | OpRemove id => Remove id s
  end.

(** A sequence of store and remove calls; their errors are dropped. *)
Definition run_Ops (ops : list Op) (s : State) : State :=
  foldl (fun s o => (run_Op o s).2) s ops.

End storage.
End Persistent.

(** ** The basic slab storage *)

Module Basic.
Import Bytes StorageIDs BaseStore.

(** [BasicSlabStorage], without its codec modes and decoders. *)
Record BasicSlabStorage (Slab : Type) : Type := mkBasicSlabStorage {
  Slabs : gmap StorageID (option Slab);
  storageIndex : gmap Address StorageIndex;
}.
Arguments mkBasicSlabStorage {Slab} _ _.
Arguments Slabs {Slab} _.
Arguments storageIndex {Slab} _.

Section basic.
Context {error Slab : Type}.

Definition Retrieve (id : StorageID) (s : BasicSlabStorage Slab)
  : option Slab * bool * option error :=
  match Slabs s !! id with
  | Some slab => (slab, true, None)
  | None => (None, false, None)
  end.

Definition Store (id : StorageID) (slab : option Slab) (s : BasicSlabStorage Slab)
  : option error * BasicSlabStorage Slab :=
  (None, mkBasicSlabStorage (<[id := slab]> (Slabs s)) (storageIndex s)).

Definition Remove (id : StorageID) (s : BasicSlabStorage Slab)
  : option error * BasicSlabStorage Slab :=
  (None, mkBasicSlabStorage (delete id (Slabs s)) (storageIndex s)).

Definition Count (s : BasicSlabStorage Slab) : Z := Z.of_nat (size (Slabs s)).

End basic.
End Basic.

(** ** Concrete storages *)

Module Examples.
Import Bytes StorageIDs BaseStore Persistent.

(** The counter from which the next handle of [address] is made, for a
    persistent storage over an in-memory base storage: the temporary counter
    for the undefined address, the entry of [storageIndex] otherwise. *)
Definition allocation_counter {Slab : Type}
    (s : PersistentSlabStorage InMemBaseStorage Slab) (address : Address) : Z :=
  if decide (address = AddressUndefined) then tempStorageIndex s
  else Uint64 (default StorageIndexUndefined
                       (storageIndex (baseStorage s) !! address)).


Definition ex_addr : Address := (x00, x00, x00, x00, x00, x00, x00, x01).
Definition ex_id (n : Z) : StorageID := NewStorageID ex_addr (PutUint64 n).
Definition ex_temp_id (n : Z) : StorageID :=
  NewStorageID AddressUndefined (PutUint64 n).

(** Slabs are booleans here; the encoder accepts [true] only. *)
Definition ex_Encode (slab : option bool) : slice_byte * option unit :=
  match slab with
  | Some true => (Some [x00; x80], None)
  | _ => (None, Some tt)
  end.

(** A decoder that, as the one of the package, refuses data shorter than the
    version and flag bytes. *)
Definition ex_DecodeSlab (id : StorageID) (bs : slice_byte)
  : option bool * option unit :=
  if decide (len bs < 2) then (None, Some tt) else (Some true, None).

Definition ex_base : Logged unit InMemBaseStorage :=
  mkLogged NewInMemBaseStorage [].


(** A slab, a tombstone and a slab under the undefined address. *)
Definition ex_good : PersistentSlabStorage (Logged unit InMemBaseStorage) bool :=
  mkPersistentSlabStorage ex_base ∅
    (<[ex_temp_id 1 := Some true]>
      (<[ex_id 2 := None]> (<[ex_id 1 := Some true]> ∅))) 1 false.

Definition ex_empty : PersistentSlabStorage InMemBaseStorage bool :=
  NewPersistentSlabStorage NewInMemBaseStorage.

Definition ex_auto : PersistentSlabStorage InMemBaseStorage bool :=
  WithAutoCommit ex_empty.



(** A committed segment of two bytes, with empty deltas and cache. *)
Definition ex_stored : PersistentSlabStorage InMemBaseStorage bool :=
  NewPersistentSlabStorage
    (NewInMemBaseStorageFromMap {[ex_id 1 := Some [x00; x80]]}).

(** Three deltas under two addresses, entered out of order: a slab at
    (address 2, index 1), a tombstone at (address 1, index 256) and a slab at
    (address 1, index 2). *)
Definition ex_addr2 : Address := (x00, x00, x00, x00, x00, x00, x00, x02).
Definition ex_mixed : PersistentSlabStorage (Logged unit InMemBaseStorage) bool :=
  mkPersistentSlabStorage ex_base ∅
    (<[ex_id 2 := Some true]>
      (<[ex_id 256 := None]>
        (<[NewStorageID ex_addr2 (PutUint64 1) := Some true]> ∅))) 0 false.

End Examples.

(** ** The default digester *)

Module Digester.
Import Bytes BaseStore.

(** A [Digest] is a [uint64]. *)
Definition Digest_t : Type := Z.

(** The errors the digester returns: the two error constructors it
    uses, and an error of the [HashInputProvider] callback, wrapped. *)
Inductive digest_error (E : Type) : Type :=
  | HashSeedUninitializedError
  | HashLevelError (level levels : N)
  | ExternalError (e : E).
Arguments HashSeedUninitializedError {E}.
Arguments HashLevelError {E} _ _.
Arguments ExternalError {E} _.

Record basicDigesterBuilder : Type := mkBasicDigesterBuilder {
  k0 : Z;
  k1 : Z;
}.

(** [[4]uint64] and the [[32]byte] result of [blake3.Sum256], as four words
    of eight bytes. *)
Definition Words4 : Type := (Z * Z * Z * Z)%type.
Definition Bytes32 : Type := (Bytes8 * Bytes8 * Bytes8 * Bytes8)%type.

Record basicDigester : Type := mkBasicDigester {
  circleHash64 : Z;
  blake3Hash : Words4;
  scratch : list byte;
  msg : slice_byte;
}.

Definition emptyBlake3Hash : Words4 := (0, 0, 0, 0).

(** [&basicDigester{}], with its 32 zero bytes of scratch space. *)
Definition zeroBasicDigester : basicDigester :=
  mkBasicDigester 0 emptyBlake3Hash (replicate 32 x00) None.

(** [h[i]] for [i] in 0..3. *)
Definition word_at (h : Words4) (i : N) : Z :=
  let '(h0, h1, h2, h3) := h in
  match i with
  | 0%N => h0
  | 1%N => h1
  | 2%N => h2
  | _ => h3
  end.

Section digester.
Context {Value E : Type}.

(** [circlehash.Hash64] and [blake3.Sum256] are external libraries. *)
Variable circlehash_Hash64 : slice_byte -> Z -> Z.
Variable blake3_Sum256 : slice_byte -> Bytes32.

Definition HashInputProvider : Type :=
  Value -> list byte -> slice_byte * option E.

Definition newBasicDigesterBuilder : basicDigesterBuilder :=
  mkBasicDigesterBuilder 0 0.

Definition SetSeed (k0' k1' : Z) (bdb : basicDigesterBuilder)
  : basicDigesterBuilder :=
  mkBasicDigesterBuilder k0' k1'.

Definition Reset (bd : basicDigester) : basicDigester :=
  mkBasicDigester 0 emptyBlake3Hash (scratch bd) None.

(** [basicDigesterPool]: the free list of unused digesters. *)
Definition getBasicDigester (pool : list basicDigester)
  : basicDigester * list basicDigester :=
  match pool with
  | bd :: pool' => (bd, pool')
  | [] => (zeroBasicDigester, [])
  end.

Definition putDigester (bd : basicDigester) (pool : list basicDigester)
  : list basicDigester :=
  Reset bd :: pool.

(** [basicDigesterBuilder.Digest]: builds a digester for [value]. *)
Definition basicDigesterBuilder_Digest (bdb : basicDigesterBuilder) (hip : HashInputProvider)
    (value : Value) (pool : list basicDigester)
  : (option basicDigester * option (digest_error E)) * list basicDigester :=
  if decide (k0 bdb = 0) then ((None, Some HashSeedUninitializedError), pool)
  else
    let '(digester, pool) := getBasicDigester pool in
    let '(m, err) := hip value (scratch digester) in
    match err with
    | Some e => ((None, Some (ExternalError e)), putDigester digester pool)
    | None =>
        ((Some (mkBasicDigester (circlehash_Hash64 m (k0 bdb))
                                (blake3Hash digester) (scratch digester) m),
          None), pool)
    end.

Definition Levels (bd : basicDigester) : N := 4.

Definition Digest (level : N) (bd : basicDigester)
  : (Digest_t * option (digest_error E)) * basicDigester :=
  if decide (Levels bd <= level)%N then
    ((0, Some (HashLevelError level (Levels bd))), bd)
  else
    match level with
    | 0%N => ((circleHash64 bd, None), bd)
    | 1%N | 2%N | 3%N =>
        let bd :=
          if decide (blake3Hash bd = emptyBlake3Hash) then
            let '(s0, s1, s2, s3) := blake3_Sum256 (msg bd) in
            mkBasicDigester (circleHash64 bd)
                            (Uint64 s0, Uint64 s1, Uint64 s2, Uint64 s3)
                            (scratch bd) (msg bd)
          else bd in
        ((word_at (blake3Hash bd) (level - 1), None), bd)
    | _ => ((0, None), bd)
    end.

(** The [for i := range level] loop of [DigestPrefix], from level [i], for
    [n] more levels. *)
Fixpoint DigestPrefix_loop (n : nat) (i : N) (prefix : list Digest_t)
    (bd : basicDigester)
  : (list Digest_t * option (digest_error E)) * basicDigester :=
  match n with
  | O => ((prefix, None), bd)
  | S n' =>
      let '((d, err), bd) := Digest i bd in
      match err with
      | Some e => (([], Some e), bd)
      | None => DigestPrefix_loop n' (i + 1)%N (prefix ++ [d]) bd
      end
  end.

Definition DigestPrefix (level : N) (bd : basicDigester)
  : (list Digest_t * option (digest_error E)) * basicDigester :=
  if decide (Levels bd < level)%N then
    (([], Some (HashLevelError level (Levels bd))), bd)
  else DigestPrefix_loop (N.to_nat level) 0%N [] bd.

End digester.
End Digester.

Module DigesterExamples.
Import Bytes BaseStore Digester.

(** Stand-ins for the two hash libraries and for the callback of a caller. *)
Definition ex_Hash64 (m : slice_byte) (seed : Z) : Z := (len m + seed) mod 2 ^ 64.
Definition ex_Sum256 (m : slice_byte) : Bytes32 :=
  (PutUint64 1, PutUint64 2, PutUint64 3, PutUint64 (len m)).
Definition ex_hip (v : Z) (scratch : list byte) : slice_byte * option unit :=
  (Some [byte_of_Z v], None).

Definition ex_builder : basicDigesterBuilder := SetSeed 7 11 newBasicDigesterBuilder.

End DigesterExamples.

(** * Further code of the storage layer *)

(** ** Raw bytes of a handle, and its validity *)

Module RawID.
Import Bytes StorageIDs BaseStore.

(** Modelled from the spec: the constant [storageIDSize] is declared in
    another file of the package; a handle is 16 bytes long, the 8 bytes of
    the address followed by the 8 bytes of the index. *)
Definition storageIDSize : Z := 16.

(** [a[:]] for an [[8]byte] array [a]. *)
Definition to_list8 (b : Bytes8) : list byte :=
  let '(b0, b1, b2, b3, b4, b5, b6, b7) := b in
  [b0; b1; b2; b3; b4; b5; b6; b7].

(** The [[8]byte] array whose elements are the first eight bytes of [l]. *)
Definition of_list8 (l : list byte) : Bytes8 :=
  (nth 0 l x00, nth 1 l x00, nth 2 l x00, nth 3 l x00,
   nth 4 l x00, nth 5 l x00, nth 6 l x00, nth 7 l x00).

(** The built-in [copy(dst, src)]: the first [min(len(dst), len(src))] bytes
    of [dst] are replaced by those of [src]; the result is the new [dst]. *)
Definition copy (dst src : list byte) : list byte :=
  take (length dst) src ++ drop (length src) dst.

(** The two errors made with [fmt.Errorf] in the conversions. *)
Inductive raw_error : Type :=
  | ErrInvalidLength (n : Z)
  | ErrBufferTooShort.

(** [NewStorageIDFromRawBytes(b)]; a [nil] slice is the empty list. *)
Definition NewStorageIDFromRawBytes (b : list byte)
  : StorageID * option raw_error :=
  if decide (Z.of_nat (length b) < storageIDSize) then
    (StorageIDUndefined, Some (ErrInvalidLength (Z.of_nat (length b))))
  else
    let address := of_list8 (copy (to_list8 zero8) b) in
    let index := of_list8 (copy (to_list8 zero8) (drop 8 b)) in
    (NewStorageID address index, None).

(** [id.ToRawBytes(b)]: the count and error returned, and the buffer [b]
    after the call. *)
Definition ToRawBytes (id : StorageID) (b : list byte)
  : (Z * option raw_error) * list byte :=
  if decide (Z.of_nat (length b) < storageIDSize) then
    ((0, Some ErrBufferTooShort), b)
  else
    let b := copy b (to_list8 (id_Address id)) in
    let b := take 8 b ++ copy (drop 8 b) (to_list8 (id_Index id)) in
    ((storageIDSize, None), b).

Inductive id_error : Type :=
  | ErrStorageID
  | ErrStorageIndex.

(** [id.Valid()]. *)
Definition Valid (id : StorageID) : option id_error :=
  if decide (id = StorageIDUndefined) then Some ErrStorageID
  else if decide (id_Index id = StorageIndexUndefined) then Some ErrStorageIndex
  else None.

(** Bytewise lexicographic order on byte strings, bytes compared as unsigned
    numbers. *)
Fixpoint lex_lt (l1 l2 : list byte) : Prop :=
  match l1, l2 with
  | [], [] => False
  | [], _ :: _ => True
  | _ :: _, [] => False
  | x :: l1', y :: l2' =>
      byte_to_Z x < byte_to_Z y \/ (x = y /\ lex_lt l1' l2')
  end.

(** The sixteen raw bytes of a handle, as [ToRawBytes] writes them. *)
Definition raw_bytes (id : StorageID) : list byte :=
  to_list8 (id_Address id) ++ to_list8 (id_Index id).

End RawID.

(** ** The in-memory base storage: size and usage report *)

Module InMemReport.
Import Bytes StorageIDs BaseStore.

(** [Size]: the [range] loop over [s.segments] adds up the lengths; the order
    of a Go map iteration is unspecified, [map_fold] follows one. *)
Definition Size (s : InMemBaseStorage) : Z :=
  map_fold (fun _ seg total => int_add total (len seg)) 0 (segments s).

Definition BytesRetrieved (s : InMemBaseStorage) : Z := bytesRetrieved s.
Definition BytesStored (s : InMemBaseStorage) : Z := bytesStored s.
Definition SegmentsReturned (s : InMemBaseStorage) : Z :=
  Z.of_nat (size (segmentsReturned s)).
Definition SegmentsUpdated (s : InMemBaseStorage) : Z :=
  Z.of_nat (size (segmentsUpdated s)).
Definition SegmentsTouched (s : InMemBaseStorage) : Z :=
  Z.of_nat (size (segmentsTouched s)).

Definition ResetReporter (s : InMemBaseStorage) : InMemBaseStorage :=
  {| segments := segments s;
     storageIndex := BaseStore.storageIndex s;
     bytesRetrieved := 0;
     bytesStored := 0;
     segmentsReturned := ∅;
     segmentsUpdated := ∅;
     segmentsTouched := ∅ |}.

(** A call on the in-memory base storage. *)
Inductive InMemOp : Type :=
  | DoStore (id : StorageID) (data : slice_byte)
  | DoRetrieve (id : StorageID)
  | DoRemove (id : StorageID)
  | DoGenerateStorageID (address : Address)
  | DoResetReporter.

Definition run_InMemOp (o : InMemOp) (s : InMemBaseStorage) : InMemBaseStorage :=
  match o with
  | DoStore id data => (InMem.Store (error:=unit) id data s).2
  | DoRetrieve id => (InMem.Retrieve (error:=unit) id s).2
  | DoRemove id => (InMem.Remove (error:=unit) id s).2
  | DoGenerateStorageID a => (InMem.GenerateStorageID (error:=unit) a s).2
  | DoResetReporter => ResetReporter s
  end.

Definition run_InMemOps (ops : list InMemOp) (s : InMemBaseStorage)
  : InMemBaseStorage :=
  foldl (fun s o => run_InMemOp o s) s ops.

End InMemReport.

(** ** The base storage over a ledger *)

Module LedgerStore.
Import Bytes StorageIDs BaseStore RawID.

(** The [Ledger] interface.  Owners and keys are byte strings; a value may be
    the [nil] slice. *)
Class Ledger (error L : Type) : Type := {
  GetValue : list byte -> list byte -> L -> (slice_byte * option error) * L;
  SetValue : list byte -> list byte -> slice_byte -> L -> option error * L;
  ValueExists : list byte -> list byte -> L -> (bool * option error) * L;
  AllocateStorageIndex : list byte -> L -> (StorageIndex * option error) * L;
}.

Record LedgerBaseStorage (L : Type) : Type := mkLedgerBaseStorage {
  ledger : L;
  bytesRetrieved : Z;
  bytesStored : Z;
}.
Arguments mkLedgerBaseStorage {L} _ _ _.
Arguments ledger {L} _.
Arguments bytesRetrieved {L} _.
Arguments bytesStored {L} _.

(** [LedgerBaseStorageSlabPrefix], the one byte of the string ["$"]. *)
Definition LedgerBaseStorageSlabPrefix : list byte := [x24].

(** [[]byte(LedgerBaseStorageSlabPrefix + string(id.Index[:]))]. *)
Definition prefixedKey (id : StorageID) : list byte :=
  LedgerBaseStorageSlabPrefix ++ to_list8 (id_Index id).

Section ledger.
Context {error L : Type} `{!Ledger error L}.

Definition NewLedgerBaseStorage (l : L) : LedgerBaseStorage L :=
  mkLedgerBaseStorage l 0 0.

Definition Retrieve (id : StorageID) (s : LedgerBaseStorage L)
  : (slice_byte * bool * option error) * LedgerBaseStorage L :=
  let '((v, err), l) :=
    GetValue (to_list8 (id_Address id)) (prefixedKey id) (ledger s) in
  ((v, bool_decide (0 < len v), err),
   mkLedgerBaseStorage l (int_add (bytesRetrieved s) (len v)) (bytesStored s)).

Definition Store (id : StorageID) (data : slice_byte) (s : LedgerBaseStorage L)
  : option error * LedgerBaseStorage L :=
  let stored := int_add (bytesStored s) (len data) in
  let '(err, l) :=
    SetValue (to_list8 (id_Address id)) (prefixedKey id) data (ledger s) in
  (err, mkLedgerBaseStorage l (bytesRetrieved s) stored).

Definition Remove (id : StorageID) (s : LedgerBaseStorage L)
  : option error * LedgerBaseStorage L :=
  let '(err, l) :=
    SetValue (to_list8 (id_Address id)) (prefixedKey id) None (ledger s) in
  (err, mkLedgerBaseStorage l (bytesRetrieved s) (bytesStored s)).

Definition GenerateStorageID (address : Address) (s : LedgerBaseStorage L)
  : (StorageID * option error) * LedgerBaseStorage L :=
  let '((idx, err), l) := AllocateStorageIndex (to_list8 address) (ledger s) in
  ((NewStorageID address idx, err),
   mkLedgerBaseStorage l (bytesRetrieved s) (bytesStored s)).

Definition BytesRetrieved (s : LedgerBaseStorage L) : Z := bytesRetrieved s.
Definition BytesStored (s : LedgerBaseStorage L) : Z := bytesStored s.
Definition SegmentCounts (s : LedgerBaseStorage L) : Z := 0.
Definition Size (s : LedgerBaseStorage L) : Z := 0.
Definition ResetReporter (s : LedgerBaseStorage L) : LedgerBaseStorage L :=
  mkLedgerBaseStorage (ledger s) 0 0.

#[global] Instance LedgerBaseStorage_BaseStorage
  : BaseStorage error (LedgerBaseStorage L) :=
  {| base_Store := Store;
     base_Retrieve := Retrieve;
     base_Remove := Remove;
     base_GenerateStorageID := GenerateStorageID;
     base_SegmentCounts := SegmentCounts |}.

End ledger.

(** *** A ledger in memory

    The ledger is a collaborator of the package, not part of it.  This one
    keeps the values in a map and, as the interface asks, deletes on an
    empty value; it serves to run the storage above at concrete inputs. *)

Record MapLedger : Type := mkMapLedger {
  values : gmap (list byte * list byte) (list byte);
  indices : gmap (list byte) StorageIndex;
}.

#[global] Instance MapLedger_Ledger : Ledger unit MapLedger :=
  {| GetValue owner key l := ((values l !! (owner, key), None), l);
     SetValue owner key value l :=
       (None,
        match value with
        | Some (b :: bs) =>
            mkMapLedger (<[(owner, key) := b :: bs]> (values l)) (indices l)
        | _ => mkMapLedger (delete (owner, key) (values l)) (indices l)
        end);
     ValueExists owner key l :=
       ((bool_decide (is_Some (values l !! (owner, key))), None), l);
     AllocateStorageIndex owner l :=
       let idx := Next (default StorageIndexUndefined (indices l !! owner)) in
       ((idx, None), mkMapLedger (values l) (<[owner := idx]> (indices l))) |}.

End LedgerStore.

(** ** The basic slab storage: allocation, key list, encode and load *)

Module BasicMore.
Import Bytes StorageIDs BaseStore Basic.

Section basic_more.
Context {error Slab : Type}.
Variable Encode : option Slab -> slice_byte * option error.
Variable DecodeSlab : StorageID -> slice_byte -> option Slab * option error.

Definition GenerateStorageID (address : Address) (s : BasicSlabStorage Slab)
  : (StorageID * option error) * BasicSlabStorage Slab :=
  let index := default StorageIndexUndefined (storageIndex s !! address) in
  let nextIndex := Next index in
  ((NewStorageID address nextIndex, None),
   mkBasicSlabStorage (Slabs s) (<[address := nextIndex]> (storageIndex s))).

(** [StorageIDs]: the keys, in the order of one iteration over the map. *)
Definition StorageIDs (s : BasicSlabStorage Slab) : list StorageID :=
  (map_to_list (Slabs s)).*1.

(** The [range] loop of [Encode], over the entries in the order [entries]. *)
Fixpoint Encode_loop (entries : list (StorageID * option Slab))
    (m : gmap StorageID slice_byte)
  : option (gmap StorageID slice_byte) * option error :=
  match entries with
  | [] => (Some m, None)
  | (id, slab) :: rest =>
      let '(b, err) := Encode slab in
      match err with
      | Some e => (None, Some e)
      | None => Encode_loop rest (<[id := b]> m)
      end
  end.

(** [BasicSlabStorage.Encode], for the iteration order [entries] of
    [s.Slabs]. *)
Definition Encode_in (entries : list (StorageID * option Slab))
  : option (gmap StorageID slice_byte) * option error :=
  Encode_loop entries ∅.

Definition BasicEncode (s : BasicSlabStorage Slab)
  : option (gmap StorageID slice_byte) * option error :=
  Encode_in (map_to_list (Slabs s)).

(** The [range] loop of [Load], over the entries of [m] in the order
    [entries]. *)
Fixpoint Load_loop (entries : list (StorageID * slice_byte))
    (s : BasicSlabStorage Slab)
  : option error * BasicSlabStorage Slab :=
  match entries with
  | [] => (None, s)
  | (id, data) :: rest =>
      let '(slab, err) := DecodeSlab id data in
      match err with
      | Some e => (Some e, s)
      | None =>
          Load_loop rest
            (mkBasicSlabStorage (<[id := slab]> (Slabs s)) (storageIndex s))
      end
  end.

Definition BasicLoad (m : gmap StorageID slice_byte) (s : BasicSlabStorage Slab)
  : option error * BasicSlabStorage Slab :=
  Load_loop (map_to_list m) s.

End basic_more.
End BasicMore.

(** ** Vocabulary for the statements about the digester *)

Module DigestWords.
Import Bytes BaseStore Digester.

(** The four words read from the 32 bytes of a [blake3.Sum256] result. *)
Definition sum_words (sum : Bytes32) : Words4 :=
  let '(s0, s1, s2, s3) := sum in
  (Uint64 s0, Uint64 s1, Uint64 s2, Uint64 s3).

(** A digester as [Reset] leaves it. *)
Definition is_reset (bd : basicDigester) : Prop :=
  circleHash64 bd = 0 /\ blake3Hash bd = emptyBlake3Hash /\ msg bd = None.

Section words.
Variable blake3_Sum256 : slice_byte -> Bytes32.

(** The memo of the digester is empty, or holds the hash of its message. *)
Definition memo_sound (bd : basicDigester) : Prop :=
  blake3Hash bd = emptyBlake3Hash \/
  blake3Hash bd = sum_words (blake3_Sum256 (msg bd)).

(** The digest of level [level] below 4: the seeded 64-bit hash at level 0,
    one of the first three words of the 256-bit hash of the message above. *)
Definition level_digest (bd : basicDigester) (level : N) : Digest_t :=
  match level with
  | 0%N => circleHash64 bd
  | _ => word_at (sum_words (blake3_Sum256 (msg bd))) (level - 1)
  end.

End words.
End DigestWords.

(** ** More concrete storages *)

Module MoreExamples.
Import Bytes StorageIDs BaseStore Persistent Examples.

(** A buffer of 20 bytes. *)
Definition ex_buffer : list byte := replicate 20 xff.

(** An in-memory base storage with one segment. *)
Definition ex_inmem : InMemBaseStorage :=
  NewInMemBaseStorageFromMap {[ex_id 1 := Some [x00; x80]]}.

(** Over it, a slab for a new handle, a tombstone for the stored handle,
    which is also in the cache, and a slab under the undefined address. *)
Definition ex_pending : PersistentSlabStorage InMemBaseStorage bool :=
  mkPersistentSlabStorage ex_inmem {[ex_id 1 := Some true]}
    (<[ex_temp_id 1 := Some true]>
      (<[ex_id 1 := None]> (<[ex_id 2 := Some true]> ∅))) 1 false.

(** The same deltas over a base storage that records its calls. *)
Definition ex_pending_logged
  : PersistentSlabStorage (Logged unit InMemBaseStorage) bool :=
  mkPersistentSlabStorage (mkLogged ex_inmem []) {[ex_id 1 := Some true]}
    (<[ex_temp_id 1 := Some true]>
      (<[ex_id 1 := None]> (<[ex_id 2 := Some true]> ∅))) 1 false.

(** The temporary counter at the largest [uint64]. *)
Definition ex_wrapped : PersistentSlabStorage InMemBaseStorage bool :=
  mkPersistentSlabStorage NewInMemBaseStorage ∅ ∅ (2 ^ 64 - 1) false.

(** A basic slab storage with one slab. *)
Definition ex_basic : Basic.BasicSlabStorage bool :=
  Basic.mkBasicSlabStorage {[ex_id 1 := Some true]} ∅.

Definition ex_basic_empty : Basic.BasicSlabStorage bool :=
  Basic.mkBasicSlabStorage ∅ ∅.

Definition ex_ops : list (Op (Slab:=bool)) :=
  [OpStore (ex_id 1) (Some true); OpRemove (ex_id 2)].

End MoreExamples.

(** * Properties *)

Import Bytes StorageIDs BaseStore Persistent Examples.

(** ** Big-endian words *)

Lemma byte_to_Z_range b : 0 <= byte_to_Z b < 256.
Proof.
  unfold byte_to_Z. pose proof (Byte.to_N_bounded b). lia.
Qed.

Lemma byte_to_Z_inj b c : byte_to_Z b = byte_to_Z c -> b = c.
Proof.
  unfold byte_to_Z. intros H. apply N2Z.inj in H.
  pose proof (Byte.of_to_N b) as Hb. rewrite H, Byte.of_to_N in Hb.
  congruence.
Qed.

Lemma byte_to_of_Z v : byte_to_Z (byte_of_Z v) = v mod 256.
Proof.
  unfold byte_to_Z, byte_of_Z.
  assert (Hr : 0 <= v mod 256 < 256) by (apply Z.mod_pos_bound; lia).
  destruct (Byte.of_N (Z.to_N (v mod 256))) as [b|] eqn:E.
  - apply Byte.to_of_N in E. rewrite E. lia.
  - apply Byte.of_N_None_iff in E. lia.
Qed.

(** One positional digit: a base-256 number determines its last digit and
    the rest. *)
Lemma digit_inj (x y a b : Z) :
  0 <= a < 256 -> 0 <= b < 256 -> x * 256 + a = y * 256 + b -> x = y /\ a = b.
Proof. lia. Qed.

Lemma Uint64_range b : 0 <= Uint64 b < uint64_modulus.
Proof.
  destruct b as [[[[[[[b0 b1] b2] b3] b4] b5] b6] b7].
  unfold Uint64, uint64_modulus.
  pose proof (byte_to_Z_range b0). pose proof (byte_to_Z_range b1).
  pose proof (byte_to_Z_range b2). pose proof (byte_to_Z_range b3).
  pose proof (byte_to_Z_range b4). pose proof (byte_to_Z_range b5).
  pose proof (byte_to_Z_range b6). pose proof (byte_to_Z_range b7).
  change (2 ^ 64) with 18446744073709551616. lia.
Qed.

Lemma Uint64_inj a b : Uint64 a = Uint64 b -> a = b.
Proof.
  destruct a as [[[[[[[a0 a1] a2] a3] a4] a5] a6] a7].
  destruct b as [[[[[[[b0 b1] b2] b3] b4] b5] b6] b7].
  unfold Uint64. intros H.
  repeat match type of H with
  | _ * 256 + byte_to_Z ?x = _ * 256 + byte_to_Z ?y =>
      apply digit_inj in H; [|apply byte_to_Z_range..];
      let E := fresh "E" in destruct H as [H E]; apply byte_to_Z_inj in E
  end.
  apply byte_to_Z_inj in H. congruence.
Qed.

Lemma div256_step (v q : Z) (k : Z) :
  0 <= k -> q = v / 2 ^ (k + 8) -> v / 2 ^ k = q * 256 + (v / 2 ^ k) mod 256.
Proof.
  intros Hk ->. rewrite Z.pow_add_r by lia. change (2 ^ 8) with 256.
  rewrite <- Z.div_div by lia.
  pose proof (Z.div_mod (v / 2 ^ k) 256). lia.
Qed.

Lemma Uint64_PutUint64 v :
  0 <= v < uint64_modulus -> Uint64 (PutUint64 v) = v.
Proof.
  unfold uint64_modulus. intros Hv. unfold Uint64, PutUint64.
  rewrite !byte_to_of_Z.
  assert (H56 : (v / 2 ^ 56) mod 256 = v / 2 ^ 56).
  { apply Z.mod_small. split; [apply Z.div_pos; lia|].
    apply Z.div_lt_upper_bound; [lia|]. change (2 ^ 56 * 256) with (2 ^ 64). lia. }
  rewrite H56.
  rewrite <- (div256_step v (v / 2 ^ 56) 48) by (lia || reflexivity).
  rewrite <- (div256_step v (v / 2 ^ 48) 40) by (lia || reflexivity).
  rewrite <- (div256_step v (v / 2 ^ 40) 32) by (lia || reflexivity).
  rewrite <- (div256_step v (v / 2 ^ 32) 24) by (lia || reflexivity).
  rewrite <- (div256_step v (v / 2 ^ 24) 16) by (lia || reflexivity).
  rewrite <- (div256_step v (v / 2 ^ 16) 8) by (lia || reflexivity).
  pose proof (div256_step v (v / 2 ^ 8) 0) as H0.
  rewrite Z.pow_0_r, Z.div_1_r in H0. rewrite <- H0 by (lia || reflexivity).
  reflexivity.
Qed.


(** ** Sorting of handles *)

Section sort_facts.
Context {A : Type}.

Lemma insert_by_Permutation (lt : A -> A -> bool) (x : A) (l : list A) : insert_by lt x l ≡ₚ x :: l.
Proof.
  induction l as [|y l IH]; simpl; [done|].
  destruct (lt y x); [|done].
  rewrite IH. apply perm_swap.
Qed.

Lemma sort_Slice_Permutation (lt : A -> A -> bool) (l : list A) : sort_Slice lt l ≡ₚ l.
Proof.
  induction l as [|x l IH]; simpl; [done|].
  rewrite insert_by_Permutation. by rewrite IH.
Qed.

Lemma sort_Slice_length (lt : A -> A -> bool) (l : list A) : length (sort_Slice lt l) = length l.
Proof. apply Permutation_length, sort_Slice_Permutation. Qed.

Section sorted.
Variable lt : A -> A -> bool.
Variable R : relation A.
Hypothesis lt_R : forall x y, lt x y = true <-> R x y.
Hypothesis R_trans : Transitive R.
Hypothesis R_total : forall x y, x <> y -> R x y \/ R y x.

Lemma insert_by_sorted x l :
    x ∉ l -> StronglySorted R l -> StronglySorted R (insert_by lt x l).
  Proof.
    induction l as [|y l IH]; simpl; intros Hx Hs.
    - repeat constructor.
    - apply not_elem_of_cons in Hx as [Hxy Hxl].
      apply StronglySorted_inv in Hs as [Hs Hy].
      destruct (lt y x) eqn:E.
      + constructor; [by apply IH|].
        apply lt_R in E. rewrite insert_by_Permutation.
        by constructor.
      + constructor; [by constructor|].
        assert (Rxy : R x y).
        { destruct (R_total x y Hxy) as [?|Hyx]; [done|].
          apply lt_R in Hyx. congruence. }
        constructor; [done|].
        eapply Forall_impl; [exact Hy|]. intros z Hz. by etrans.
  Qed.

Lemma sort_Slice_sorted l : NoDup l -> StronglySorted R (sort_Slice lt l).
  Proof.
    induction 1 as [|x l Hx Hnd IH]; simpl; [constructor|].
    apply insert_by_sorted; [|done].
    by rewrite sort_Slice_Permutation.
  Qed.

  (** Whatever order the input comes in, and whatever procedure sorts it,
      the sorted slice is the same. *)
Lemma sort_Slice_unique l l' :
    Irreflexive R -> NoDup l -> l' ≡ₚ l -> StronglySorted R l' ->
    l' = sort_Slice lt l.
  Proof.
    intros Hirr Hnd Hp Hs.
    apply (StronglySorted_unique_strong R); [|done|by apply sort_Slice_sorted|].
    - intros x y _ _ Hxy Hyx. destruct (Hirr x). by etrans.
    - by rewrite sort_Slice_Permutation.
  Qed.

Lemma sort_Slice_order_irrelevant l l' :
    Irreflexive R -> NoDup l -> l' ≡ₚ l -> sort_Slice lt l' = sort_Slice lt l.
  Proof.
    intros Hirr Hnd Hp. apply sort_Slice_unique; [done..| |].
    - by rewrite sort_Slice_Permutation.
    - apply sort_Slice_sorted. by rewrite Hp.
  Qed.
End sorted.
End sort_facts.

Lemma less_handle_lt a b : less a b = true <-> handle_lt a b.
Proof.
  unfold less, handle_lt, AddressAsUint64, IndexAsUint64.
  destruct (decide (id_Address a = id_Address b)) as [E|E].
  - rewrite E, Z.ltb_lt. intuition lia.
  - rewrite Z.ltb_lt. split; [auto|].
    intros [?|[Heq _]]; [done|]. by apply Uint64_inj in Heq.
Qed.

#[global] Instance handle_lt_trans : Transitive handle_lt.
Proof. unfold handle_lt. intros a b c. lia. Qed.

#[global] Instance handle_lt_irrefl : Irreflexive handle_lt.
Proof. unfold handle_lt. intros a. red. lia. Qed.

Lemma handle_lt_total a b : a <> b -> handle_lt a b \/ handle_lt b a.
Proof.
  intros Hne. unfold handle_lt, AddressAsUint64, IndexAsUint64.
  destruct a as [aa ai], b as [ba bi]; simpl.
  destruct (Z.lt_total (Uint64 aa) (Uint64 ba)) as [?|[Ea|?]]; [auto| |auto].
  destruct (Z.lt_total (Uint64 ai) (Uint64 bi)) as [?|[Ei|?]]; [auto| |auto].
  apply Uint64_inj in Ea, Ei. congruence.
Qed.


(** ** The keys of a commit *)

Section keys_facts.
Context {error Slab B : Type} `{!BaseStorage error B}.
Implicit Types s : PersistentSlabStorage B Slab.

Lemma delta_keys_NoDup s : NoDup (map_to_list (deltas s)).*1.
Proof. apply NoDup_fst_map_to_list. Qed.

Lemma elem_of_delta_keys s id :
  id ∈ (map_to_list (deltas s)).*1 <-> is_Some (deltas s !! id).
Proof.
  rewrite list_elem_of_fmap. split.
  - intros [[k v] [-> Hin]]. apply elem_of_map_to_list in Hin. by exists v.
  - intros [v Hv]. exists (id, v). split; [done|]. by apply elem_of_map_to_list.
Qed.

Lemma elem_of_sortedOwnedDeltaKeys s id :
  id ∈ sortedOwnedDeltaKeys s <->
  is_Some (deltas s !! id) /\ id_Address id <> AddressUndefined.
Proof.
  unfold sortedOwnedDeltaKeys, ownedKeys.
  rewrite sort_Slice_Permutation, list_elem_of_filter, elem_of_delta_keys.
  tauto.
Qed.

Lemma sortedOwnedDeltaKeys_sorted s :
  StronglySorted handle_lt (sortedOwnedDeltaKeys s).
Proof.
  apply (sort_Slice_sorted less handle_lt).
  - apply less_handle_lt.
  - apply _.
  - apply handle_lt_total.
  - apply NoDup_filter, delta_keys_NoDup.
Qed.

Lemma sortedOwnedDeltaKeys_NoDup s : NoDup (sortedOwnedDeltaKeys s).
Proof.
  unfold sortedOwnedDeltaKeys. rewrite sort_Slice_Permutation.
  apply NoDup_filter, delta_keys_NoDup.
Qed.

(** The iteration order of the [range] loop over [s.deltas] does not matter. *)
Lemma sortedOwnedDeltaKeys_any_order s (ks : list StorageID) :
  ks ≡ₚ (map_to_list (deltas s)).*1 ->
  sort_Slice less (ownedKeys ks) = sortedOwnedDeltaKeys s.
Proof.
  intros Hp. unfold sortedOwnedDeltaKeys.
  apply (sort_Slice_order_irrelevant less handle_lt).
  - apply less_handle_lt.
  - apply _.
  - apply handle_lt_total.
  - apply _.
  - apply NoDup_filter, delta_keys_NoDup.
  - unfold ownedKeys. by rewrite Hp.
Qed.

End keys_facts.

(** ** The loops of [Commit] and [FastCommit] *)

Section loop_facts.
Context {error Slab B : Type} `{!BaseStorage error B}.
Variable Encode : option Slab -> slice_byte * option error.

Implicit Types s : PersistentSlabStorage B Slab.

Lemma Commit_loop_deltas keys s :
  deltas (Commit_loop Encode keys s).2 = deltas s.
Proof.
  revert s. induction keys as [|id keys IH]; intros s; [done|].
  cbn [Commit_loop]. destruct (index_map (deltas s) id) as [slab|].
  - destruct (Encode (Some slab)) as [bs [e|]]; [done|].
    destruct (base_Store id bs (baseStorage s)) as [[e|] b]; [done|].
    by rewrite IH.
  - destruct (base_Remove id (baseStorage s)) as [[e|] b]; [done|].
    by rewrite IH.
Qed.

(** The loop writes the cache only at the keys it is given. *)
Lemma Commit_loop_cache keys s id :
  id ∉ keys -> cache (Commit_loop Encode keys s).2 !! id = cache s !! id.
Proof.
  revert s. induction keys as [|k keys IH]; intros s Hid; [done|].
  apply not_elem_of_cons in Hid as [Hne Hid].
  cbn [Commit_loop]. destruct (index_map (deltas s) k) as [slab|].
  - destruct (Encode (Some slab)) as [bs [e|]]; [done|].
    destruct (base_Store k bs (baseStorage s)) as [[e|] b]; [done|].
    rewrite IH by done. simpl. by rewrite lookup_insert_ne.
  - destruct (base_Remove k (baseStorage s)) as [[e|] b]; [done|].
    by rewrite IH.
Qed.










End loop_facts.

(** ** Commit, seen through the calls it makes on the base storage *)

Section commit_facts.
Context {error Slab B : Type} `{!BaseStorage error B}.
Variable Encode : option Slab -> slice_byte * option error.

Implicit Types s : PersistentSlabStorage (Logged error B) Slab.

Lemma loop_outcome_cons d id keys err c cs n :
  call_ok c -> encodes Encode d id ->
  loop_outcome Encode d keys err cs n ->
  loop_outcome Encode d (id :: keys) err (c :: cs) (S n).
Proof.
  intros Hc Hid. unfold loop_outcome. destruct err as [e|].
  - intros [(cs0 & c' & -> & Hce & Hok)|(Hok & Hk)]; [left|right].
    + exists (c :: cs0), c'. split; [done|]. split; [done|]. by constructor.
    + split; [by constructor|done].
  - intros (-> & Hok & Hkeys). split; [done|]. split; by constructor.
Qed.

Lemma loop_outcome_base_error d id keys e c :
  c.2 = Some e -> loop_outcome Encode d (id :: keys) (Some e) [c] 1.
Proof. intros Hc. left. by exists [], c. Qed.

Lemma Commit_loop_log keys s :
  deltas (Commit_loop Encode keys s).2 = deltas s /\
  exists n cs,
    (n <= length keys)%nat /\
    calls (baseStorage (Commit_loop Encode keys s).2)
      = calls (baseStorage s) ++ cs /\
    cs.*1 = commit_call Encode (deltas s) <$> take n keys /\
    loop_outcome Encode (deltas s) keys (Commit_loop Encode keys s).1 cs n.
Proof.
  revert s. induction keys as [|id keys IH]; intros s.
  - simpl. split; [done|]. exists 0%nat, []. rewrite app_nil_r.
    split; [done|]. split; [done|]. split; [done|].
    split; [done|]. split; constructor.
  - cbn [Commit_loop].
    assert (Hcall : forall data, index_map (deltas s) id = None \/
              (exists slab, index_map (deltas s) id = Some slab /\
                            (Encode (Some slab)).1 = data) ->
              commit_call Encode (deltas s) id =
              match index_map (deltas s) id with
              | None => CallRemove id | Some _ => CallStore id data end).
    { intros data [Hn|(slab & Hs & <-)]; unfold commit_call; by rewrite ?Hn, ?Hs. }
    destruct (index_map (deltas s) id) as [slab|] eqn:Hd.
    + destruct (Encode (Some slab)) as [data [e|]] eqn:He.
      * simpl. split; [done|]. exists 0%nat, []. rewrite app_nil_r.
        split; [lia|]. split; [done|]. split; [done|].
        right. split; [constructor|]. exists id, slab. by rewrite He.
      * cbn [base_Store Logged_BaseStorage record_call].
        destruct (base_Store id data (inner (baseStorage s))) as [[e|] b] eqn:Hb.
        -- simpl. split; [done|].
           exists 1%nat, [(CallStore id data, Some e)].
           split; [lia|]. split; [done|]. split.
           ++ simpl. rewrite (Hcall data); [done|]. right. exists slab.
              by rewrite He.
           ++ by apply loop_outcome_base_error.
        -- cbn [fst snd].
           match goal with |- context [Commit_loop Encode keys ?s1] =>
             destruct (IH s1) as (IHd & n & cs & Hn & Hcs & Hc & Ho) end.
           split; [by rewrite IHd|].
           exists (S n), ((CallStore id data, None) :: cs).
           split; [simpl; lia|]. split; [|split].
           ++ rewrite Hcs. simpl. by rewrite <- app_assoc.
           ++ rewrite fmap_cons, Hc, firstn_cons, fmap_cons.
              f_equal. rewrite (Hcall data); [done|].
              right. exists slab. by rewrite He.
           ++ apply loop_outcome_cons; [done| |exact Ho].
              unfold encodes. by rewrite Hd, He.
    + cbn [base_Remove Logged_BaseStorage record_call].
      destruct (base_Remove id (inner (baseStorage s))) as [[e|] b] eqn:Hb.
      * simpl. split; [done|].
        exists 1%nat, [(CallRemove id, Some e)].
        split; [lia|]. split; [done|]. split.
        -- simpl. rewrite (Hcall None); [done|]. by left.
        -- by apply loop_outcome_base_error.
      * cbn [fst snd].
        match goal with |- context [Commit_loop Encode keys ?s1] =>
          destruct (IH s1) as (IHd & n & cs & Hn & Hcs & Hc & Ho) end.
        split; [by rewrite IHd|].
        exists (S n), ((CallRemove id, None) :: cs).
        split; [simpl; lia|]. split; [|split].
        -- rewrite Hcs. simpl. by rewrite <- app_assoc.
        -- rewrite fmap_cons, Hc, firstn_cons, fmap_cons.
           f_equal. rewrite (Hcall None); [done|]. by left.
        -- apply loop_outcome_cons; [done| |exact Ho].
           unfold encodes. by rewrite Hd.
Qed.

Lemma Commit_fst s :
  (Commit Encode s).1 = (Commit_loop Encode (sortedOwnedDeltaKeys s) s).1.
Proof.
  unfold Commit. destruct (Commit_loop _ _ _) as [[e|] s']; reflexivity.
Qed.

Lemma Commit_baseStorage s :
  baseStorage (Commit Encode s).2
  = baseStorage (Commit_loop Encode (sortedOwnedDeltaKeys s) s).2.
Proof.
  unfold Commit. destruct (Commit_loop _ _ _) as [[e|] s']; reflexivity.
Qed.

Lemma Commit_cache s :
  cache (Commit Encode s).2
  = cache (Commit_loop Encode (sortedOwnedDeltaKeys s) s).2.
Proof.
  unfold Commit. destruct (Commit_loop _ _ _) as [[e|] s']; reflexivity.
Qed.

Lemma Commit_deltas s :
  deltas (Commit Encode s).2
  = match (Commit Encode s).1 with
    | None => ∅
    | Some _ => deltas s
    end.
Proof.
  pose proof (Commit_loop_log (sortedOwnedDeltaKeys s) s) as [Hd _].
  unfold Commit. destruct (Commit_loop _ _ _) as [[e|] s']; simpl in *; done.
Qed.




(** When a commit returns no error, it has made the call of every key, every
    call and every encoding has succeeded, and the deltas are empty. *)
Lemma Commit_success s :
  (Commit Encode s).1 = None ->
  deltas (Commit Encode s).2 = ∅ /\
  exists cs,
    calls (baseStorage (Commit Encode s).2) = calls (baseStorage s) ++ cs /\
    cs.*1 = commit_call Encode (deltas s) <$> sortedOwnedDeltaKeys s /\
    Forall call_ok cs /\
    Forall (encodes Encode (deltas s)) (sortedOwnedDeltaKeys s).
Proof.
  intros He. split; [by rewrite Commit_deltas, He|].
  destruct (Commit_loop_log (sortedOwnedDeltaKeys s) s)
    as (_ & n & cs & Hn & Hcs & Hc & Ho).
  rewrite <- Commit_fst, He in Ho. destruct Ho as (-> & Hok & Henc).
  rewrite firstn_all in Hc.
  exists cs. by rewrite Commit_baseStorage.
Qed.

Lemma commit_call_handle (d : gmap StorageID (option Slab)) k id :
  commit_call Encode d k = CallRemove id \/
  (exists bs, commit_call Encode d k = CallStore id bs) ->
  k = id.
Proof.
  unfold commit_call. destruct (index_map d k).
  - intros [?|[bs ?]]; congruence.
  - intros [?|[bs ?]]; congruence.
Qed.

(** C5: a commit makes no call on the base storage, neither a store nor a
    remove, for a handle whose address is the undefined address; it does not
    put the slab of such a handle into the cache either, and when it succeeds
    it drops the delta with all the others. *)
Theorem C5_commit_skips_undefined_address s id :
  id_Address id = AddressUndefined ->
  (exists cs,
     calls (baseStorage (Commit Encode s).2) = calls (baseStorage s) ++ cs /\
     Forall (fun c => c.1 <> CallRemove id /\ forall bs, c.1 <> CallStore id bs)
            cs) /\
  cache (Commit Encode s).2 !! id = cache s !! id /\
  ((Commit Encode s).1 = None -> deltas (Commit Encode s).2 !! id = None).
Proof.
  intros Hid.
  assert (Hnot : id ∉ sortedOwnedDeltaKeys s).
  { intros [_ Hown]%elem_of_sortedOwnedDeltaKeys. done. }
  split; [|split].
  - destruct (Commit_loop_log (sortedOwnedDeltaKeys s) s)
      as (_ & n & cs & _ & Hcs & Hc & _).
    exists cs. rewrite Commit_baseStorage. split; [done|].
    apply Forall_forall. intros c Hin.
    assert (Hc1 : c.1 ∈ cs.*1) by (apply list_elem_of_fmap; eauto).
    rewrite Hc in Hc1. apply list_elem_of_fmap in Hc1 as (k & Hk & Hkin).
    assert (Hne : k <> id).
    { intros ->. apply Hnot. by apply (subseteq_take n) in Hkin. }
    split.
    + intros Heq. apply Hne, (commit_call_handle (deltas s)). left. congruence.
    + intros bs Heq. apply Hne, (commit_call_handle (deltas s)). right.
      exists bs. congruence.
  - rewrite Commit_cache. by apply Commit_loop_cache.
  - intros He. by rewrite Commit_deltas, He.
Qed.


End commit_facts.

(** ** Retrieve, Store, Remove and Count *)

Section storage_facts.
Context {error Slab B : Type} `{!BaseStorage error B}.
Variable Encode : option Slab -> slice_byte * option error.
Variable DecodeSlab : StorageID -> slice_byte -> option Slab * option error.

Implicit Types s : PersistentSlabStorage B Slab.

(** C3: a retrieve answers from the deltas when the handle has an entry
    there, reporting found exactly when the entry is not a tombstone;
    otherwise from the cache when the handle has an entry there; otherwise it
    fetches the bytes from the base storage, decodes them and, the decoding
    having succeeded, puts the decoded slab into the cache and returns it
    with the found flag of the base storage.  In the first two cases the
    storage is left as it was. *)
Theorem C3_retrieve_deltas_cache_base s id :
  (forall slab,
     deltas s !! id = Some slab ->
     Retrieve DecodeSlab id s = ((slab, not_nil slab, None), s)) /\
  (forall slab,
     deltas s !! id = None -> cache s !! id = Some slab ->
     Retrieve DecodeSlab id s = ((slab, true, None), s)) /\
  (forall bs ok b slab,
     deltas s !! id = None -> cache s !! id = None ->
     base_Retrieve id (baseStorage s) = ((bs, ok, None), b) ->
     DecodeSlab id bs = (slab, None) ->
     Retrieve DecodeSlab id s
     = ((slab, ok, None),
        set_cache (<[id := slab]> (cache s)) (set_baseStorage b s))).
Proof.
  unfold Retrieve. split; [|split].
  - by intros slab ->.
  - by intros slab -> ->.
  - by intros bs ok b slab -> -> -> ->.
Qed.

(** The two failures of the third case: an error of the base storage is
    returned as it is, without decoding; an error of the decoder is returned
    next to the found flag of the base storage, and the cache is not written. *)
Lemma Retrieve_errors s id :
  deltas s !! id = None -> cache s !! id = None ->
  (forall bs ok b e,
     base_Retrieve id (baseStorage s) = ((bs, ok, Some e), b) ->
     Retrieve DecodeSlab id s = ((None, false, Some e), set_baseStorage b s)) /\
  (forall bs ok b slab e,
     base_Retrieve id (baseStorage s) = ((bs, ok, None), b) ->
     DecodeSlab id bs = (slab, Some e) ->
     Retrieve DecodeSlab id s = ((slab, ok, Some e), set_baseStorage b s)).
Proof.
  unfold Retrieve. intros -> ->. split.
  - by intros bs ok b e ->.
  - by intros bs ok b slab e -> ->.
Qed.


Lemma run_Op_no_auto_commit o s :
  autoCommit s = false ->
  (run_Op Encode o s).1 = None /\
  baseStorage (run_Op Encode o s).2 = baseStorage s /\
  cache (run_Op Encode o s).2 = cache s /\
  autoCommit (run_Op Encode o s).2 = false.
Proof.
  intros Ha. destruct o as [id slab|id]; unfold run_Op, Store, Remove;
    rewrite Ha; done.
Qed.

Lemma run_Ops_no_auto_commit ops s :
  autoCommit s = false ->
  baseStorage (run_Ops Encode ops s) = baseStorage s /\
  cache (run_Ops Encode ops s) = cache s /\
  autoCommit (run_Ops Encode ops s) = false.
Proof.
  revert s. induction ops as [|o ops IH]; intros s Ha; [done|].
  destruct (run_Op_no_auto_commit o s Ha) as (_ & Hb & Hc & Ha').
  unfold run_Ops in *. cbn [foldl].
  destruct (IH _ Ha') as (IHb & IHc & IHa).
  rewrite IHb, IHc, IHa. done.
Qed.

(** C10: the count is the number of segments of the base storage, and with
    auto-commit unset no sequence of store and remove calls changes it: the
    calls do not reach the base storage. *)
Theorem C10_count_ignores_pending_deltas ops s :
  autoCommit s = false ->
  Count s = base_SegmentCounts (baseStorage s) /\
  baseStorage (run_Ops Encode ops s) = baseStorage s /\
  Count (run_Ops Encode ops s) = Count s.
Proof.
  intros Ha. destruct (run_Ops_no_auto_commit ops s Ha) as (Hb & _ & _).
  unfold Count. by rewrite Hb.
Qed.

End storage_facts.

(** ** Retrieve of a handle that is nowhere *)

Section absent_facts.
Context {error Slab : Type}.
Variable DecodeSlab : StorageID -> slice_byte -> option Slab * option error.

Implicit Types s : PersistentSlabStorage InMemBaseStorage Slab.

(** C6 (the code departs from it): for a handle that is in the deltas, in
    the cache and in the in-memory base storage nowhere, the base storage
    reports not found with a nil slice, and the retrieve still hands that
    slice to the decoder: when the decoder rejects it, the retrieve returns
    the decoder's error next to found = false. *)
Theorem C6_retrieve_absent_returns_decoder_error s id slab e :
  deltas s !! id = None ->
  cache s !! id = None ->
  segments (baseStorage s) !! id = None ->
  DecodeSlab id None = (slab, Some e) ->
  (Retrieve DecodeSlab id s).1 = (slab, false, Some e).
Proof.
  intros Hd Hc Hb Hdec. unfold Retrieve. rewrite Hd, Hc.
  cbn [base_Retrieve InMemBaseStorage_BaseStorage]. unfold InMem.Retrieve.
  rewrite Hb. cbn. by rewrite Hdec.
Qed.

(** With a decoder that accepts the nil slice the same retrieve returns no
    error, but it caches the slab the decoder made up, and the next retrieve
    of the handle reports it as found. *)
Lemma Retrieve_absent_decoded_is_cached s id slab :
  deltas s !! id = None ->
  cache s !! id = None ->
  segments (baseStorage s) !! id = None ->
  DecodeSlab id None = (slab, None) ->
  (Retrieve DecodeSlab id s).1 = (slab, false, None) /\
  (Retrieve DecodeSlab id (Retrieve DecodeSlab id s).2).1 = (slab, true, None).
Proof.
  intros Hd Hc Hb Hdec.
  assert (H1 : exists b,
    Retrieve DecodeSlab id s
    = ((slab, false, None),
       set_cache (<[id := slab]> (cache s)) (set_baseStorage b s))).
  { unfold Retrieve. rewrite Hd, Hc.
    cbn [base_Retrieve InMemBaseStorage_BaseStorage]. unfold InMem.Retrieve.
    rewrite Hb. cbn. rewrite Hdec. eauto. }
  destruct H1 as [b ->]. split; [done|].
  unfold Retrieve, set_cache, set_baseStorage. cbn.
  by rewrite Hd, lookup_insert_eq.
Qed.

(** The basic slab storage, for comparison, reports a handle it does not
    hold as not found, without an error. *)
Lemma BasicSlabStorage_Retrieve_absent (b : Basic.BasicSlabStorage Slab) id :
  Basic.Slabs b !! id = None ->
  Basic.Retrieve (error:=error) id b = (None, false, None).
Proof. intros Hb. unfold Basic.Retrieve. by rewrite Hb. Qed.

End absent_facts.

(** ** Allocation of handles *)

Section allocation_facts.
Context {error Slab : Type}.

Implicit Types s : PersistentSlabStorage InMemBaseStorage Slab.

Lemma Uint64_zero8 : Uint64 zero8 = 0.
Proof. reflexivity. Qed.

Lemma Next_Uint64 index :
  Uint64 index < 2 ^ 64 - 1 -> Uint64 (Next index) = Uint64 index + 1.
Proof.
  intros Hlt. pose proof (Uint64_range index) as Hr.
  unfold Next, uint64_succ, uint64_modulus in *.
  rewrite Uint64_PutUint64; unfold uint64_modulus; rewrite Z.mod_small; lia.
Qed.

Lemma allocation_counter_nonneg s a :
  0 <= tempStorageIndex s -> 0 <= allocation_counter s a.
Proof.
  intros Ht. unfold allocation_counter. case_decide; [done|].
  apply Uint64_range.
Qed.

Lemma allocation_counter_undefined s :
  allocation_counter s AddressUndefined = tempStorageIndex s.
Proof. unfold allocation_counter. by rewrite decide_True. Qed.

Lemma allocation_counter_defined s a :
  a <> AddressUndefined ->
  allocation_counter s a
  = Uint64 (default StorageIndexUndefined (storageIndex (baseStorage s) !! a)).
Proof. intros Ha. unfold allocation_counter. by rewrite decide_False. Qed.

(** One allocation below the wrap-around: the handle carries the counter
    plus one, which becomes the counter of the address; the counters of the
    other addresses stay. *)
Lemma GenerateStorageID_step s a :
  0 <= tempStorageIndex s ->
  allocation_counter s a < 2 ^ 64 - 1 ->
  (GenerateStorageID (error:=error) a s).1.2 = None /\
  id_Address (GenerateStorageID (error:=error) a s).1.1 = a /\
  IndexAsUint64 (GenerateStorageID (error:=error) a s).1.1
    = allocation_counter s a + 1 /\
  allocation_counter (GenerateStorageID (error:=error) a s).2 a
    = allocation_counter s a + 1 /\
  (forall a', a' <> a ->
     allocation_counter (GenerateStorageID (error:=error) a s).2 a'
     = allocation_counter s a') /\
  0 <= tempStorageIndex (GenerateStorageID (error:=error) a s).2.
Proof.
  intros Ht Hlt. unfold GenerateStorageID.
  destruct (decide (a = AddressUndefined)) as [->|Ha].
  - rewrite allocation_counter_undefined in Hlt.
    assert (Hs : uint64_succ (tempStorageIndex s) = tempStorageIndex s + 1).
    { unfold uint64_succ, uint64_modulus. rewrite Z.mod_small; lia. }
    cbn [fst snd id_Address]. rewrite !allocation_counter_undefined.
    unfold IndexAsUint64. cbn [id_Index tempStorageIndex set_tempStorageIndex].
    rewrite Hs, Uint64_PutUint64 by (unfold uint64_modulus; lia).
    repeat split; try lia.
    intros a' Ha'. by rewrite !allocation_counter_defined.
  - rewrite allocation_counter_defined in Hlt by done.
    cbn [base_GenerateStorageID InMemBaseStorage_BaseStorage].
    unfold InMem.GenerateStorageID. cbn [fst snd id_Address].
    rewrite !allocation_counter_defined by done.
    unfold IndexAsUint64.
    cbn [id_Index baseStorage set_baseStorage storageIndex tempStorageIndex].
    rewrite lookup_insert_eq. cbn [default from_option]. unfold id.
    rewrite Next_Uint64 by done.
    repeat split; try lia.
    intros a' Ha'. unfold allocation_counter. case_decide; [done|].
    cbn. by rewrite lookup_insert_ne.
Qed.




End allocation_facts.

(** ** The default digester *)

Section digester_facts.
Import Digester.
Context {E : Type}.
Variable blake3_Sum256 : slice_byte -> Bytes32.

(** C8 (amended): at every level from 4 on, [Digest] fails: it returns the
    hash-level error, next to the zero digest, and leaves the digester as it
    was.  The list-mode branch of its [switch] is never reached. *)
Theorem C8_digest_level_out_of_range (level : N) (bd : basicDigester) :
  (4 <= level)%N ->
  Digest (E:=E) blake3_Sum256 level bd = ((0, Some (HashLevelError level 4)), bd).
Proof.
  intros Hl. unfold Digest, Levels. by rewrite decide_True.
Qed.

(** Below level 4, [Digest] returns no error. *)
Lemma Digest_level_in_range (level : N) (bd : basicDigester) :
  (level < 4)%N -> (Digest (E:=E) blake3_Sum256 level bd).1.2 = None.
Proof.
  intros Hl. unfold Digest, Levels. rewrite decide_False by lia.
  destruct level as [|[[|[]|]|[|[]|]|]]; try done; lia.
Qed.

End digester_facts.

(** ** The statements at concrete storages *)

Import Digester DigesterExamples.



(** The calls of a commit on three deltas under two addresses: the index
    256, whose bytes are 01 00, comes after the index 2, and both come before
    the handle of the larger address. *)
Example Commit_ex_mixed_calls :
  calls (baseStorage (Commit ex_Encode ex_mixed).2)
  = [(CallStore (ex_id 2) (Some [x00; x80]), None);
     (CallRemove (ex_id 256), None);
     (CallStore (NewStorageID ex_addr2 (PutUint64 1)) (Some [x00; x80]), None)].
Proof. vm_compute. reflexivity. Qed.



(** C3 at a tombstone in the deltas, and at a handle that only the base
    storage holds. *)
Lemma C3_witness :
  Retrieve ex_DecodeSlab (ex_id 2) ex_good = ((None, false, None), ex_good) /\
  (Retrieve ex_DecodeSlab (ex_id 1) ex_stored).1 = (Some true, true, None).
Proof.
  split.
  - apply (proj1 (C3_retrieve_deltas_cache_base ex_DecodeSlab ex_good (ex_id 2))
                 None).
    vm_compute. reflexivity.
  - rewrite (proj2 (proj2 (C3_retrieve_deltas_cache_base
                             ex_DecodeSlab ex_stored (ex_id 1)))
               (Some [x00; x80]) true
               (base_Retrieve (error:=unit) (ex_id 1) (baseStorage ex_stored)).2
               (Some true)).
    + reflexivity.
    + vm_compute. reflexivity.
    + vm_compute. reflexivity.
    + apply injective_projections; [vm_compute; reflexivity|reflexivity].
    + vm_compute. reflexivity.
Defined.


(** C5 at a delta under the undefined address. *)
Lemma C5_witness :
  id_Address (ex_temp_id 1) = AddressUndefined /\
  is_Some (deltas ex_good !! ex_temp_id 1) /\
  cache (Commit ex_Encode ex_good).2 !! ex_temp_id 1
    = cache ex_good !! ex_temp_id 1.
Proof.
  assert (H : id_Address (ex_temp_id 1) = AddressUndefined) by reflexivity.
  split; [exact H|]. split; [exists (Some true); vm_compute; reflexivity|].
  exact (proj1 (proj2 (C5_commit_skips_undefined_address
                         ex_Encode ex_good (ex_temp_id 1) H))).
Defined.

(** C6 at the empty storage, with a decoder that refuses short data. *)
Lemma C6_witness :
  ex_DecodeSlab (ex_id 1) None = (None, Some tt) /\
  (Retrieve ex_DecodeSlab (ex_id 1) ex_empty).1 = (None, false, Some tt).
Proof.
  assert (H : ex_DecodeSlab (ex_id 1) None = (None, Some tt)) by reflexivity.
  split; [exact H|].
  apply (C6_retrieve_absent_returns_decoder_error
           ex_DecodeSlab ex_empty (ex_id 1) None tt); [reflexivity..|exact H].
Defined.



(** C8, as stated, fails: a digester has been built, and [Digest] at level 4
    returns an error. *)
Lemma C8_digest_level_4_fails :
  (basicDigesterBuilder_Digest ex_Hash64 ex_builder ex_hip 5 []).1
    = (Some (mkBasicDigester 8 emptyBlake3Hash (replicate 32 x00) (Some [x05])),
       None) /\
  (Digest (E:=unit) ex_Sum256 4
     (mkBasicDigester 8 emptyBlake3Hash (replicate 32 x00) (Some [x05]))).1
    = (0, Some (HashLevelError 4 4)).
Proof. split; vm_compute; reflexivity. Qed.

(** C8 (amended) at level 7 of the zero digester. *)
Lemma C8_witness :
  (4 <= 7)%N /\
  Digest (E:=unit) ex_Sum256 7 zeroBasicDigester
    = ((0, Some (HashLevelError 7 4)), zeroBasicDigester).
Proof.
  assert (H : (4 <= 7)%N) by lia.
  split; [exact H|]. exact (C8_digest_level_out_of_range ex_Sum256 7 _ H).
Defined.



(** C10 at a store and a remove on a new storage. *)
Lemma C10_witness :
  autoCommit ex_empty = false /\
  Count (error:=unit) (run_Ops ex_Encode [OpStore (ex_id 1) (Some true); OpRemove (ex_id 2)]
                 ex_empty)
    = Count (error:=unit) ex_empty.
Proof.
  split; [reflexivity|].
  exact (proj2 (proj2 (C10_count_ignores_pending_deltas
                         ex_Encode [OpStore (ex_id 1) (Some true); OpRemove (ex_id 2)]
                         ex_empty eq_refl))).
Defined.

(** * Further properties *)

(** ** Raw bytes and validity of handles *)

Section raw_facts.
Import RawID.

Lemma to_list8_length (b : Bytes8) : length (to_list8 b) = 8%nat.
Proof. by destruct b as [[[[[[[b0 b1] b2] b3] b4] b5] b6] b7]. Qed.

Lemma of_to_list8 (b : Bytes8) : of_list8 (to_list8 b) = b.
Proof. by destruct b as [[[[[[[b0 b1] b2] b3] b4] b5] b6] b7]. Qed.

Lemma to_list8_inj (a b : Bytes8) : to_list8 a = to_list8 b -> a = b.
Proof. intros H. by rewrite <- (of_to_list8 a), H, of_to_list8. Qed.

(** Handle to raw bytes and back: into a buffer of at least 16 bytes,
    [ToRawBytes] writes the 8 bytes of the address and the 8 bytes of the
    index over the first 16 bytes, reports 16 bytes written and leaves the
    rest of the buffer; [NewStorageIDFromRawBytes] reads the handle back
    from that buffer. *)
Theorem ToRawBytes_then_NewStorageIDFromRawBytes (id : StorageID) (b : list byte) :
  (16 <= length b)%nat ->
  (ToRawBytes id b).1 = (16, None) /\
  (ToRawBytes id b).2 = raw_bytes id ++ drop 16 b /\
  NewStorageIDFromRawBytes (ToRawBytes id b).2 = (id, None).
Proof.
  intros Hlen.
  do 16 (destruct b as [|? b]; [simpl in Hlen; lia|]).
  destruct id as [[[[[[[[a0 a1] a2] a3] a4] a5] a6] a7]
                  [[[[[[[i0 i1] i2] i3] i4] i5] i6] i7]].
  unfold ToRawBytes, storageIDSize.
  rewrite decide_False by (cbn [length]; lia).
  cbn. rewrite !take_nil. cbn. split; [reflexivity|]. split; [reflexivity|].
  unfold NewStorageIDFromRawBytes, storageIDSize.
  rewrite decide_False by (cbn [length]; lia).
  reflexivity.
Qed.

(** Raw bytes to handle and back: [NewStorageIDFromRawBytes] fails exactly
    on a slice shorter than 16 bytes, and then returns the undefined handle;
    otherwise the raw bytes of the handle it returns are the first 16 bytes
    of the slice, whatever follows them. *)
Theorem NewStorageIDFromRawBytes_raw_bytes (b : list byte) :
  ((NewStorageIDFromRawBytes b).2 = None <-> (16 <= length b)%nat) /\
  ((length b < 16)%nat -> (NewStorageIDFromRawBytes b).1 = StorageIDUndefined) /\
  ((16 <= length b)%nat ->
   raw_bytes (NewStorageIDFromRawBytes b).1 = take 16 b).
Proof.
  unfold NewStorageIDFromRawBytes, storageIDSize. split; [|split].
  - destruct (decide _); simpl; split; intros H; try done; try lia.
  - intros Hlen. by rewrite decide_True by lia.
  - intros Hlen. rewrite decide_False by lia.
    do 16 (destruct b as [|? b]; [simpl in Hlen; lia|]). reflexivity.
Qed.

Lemma Valid_None_iff (id : StorageID) :
  Valid id = None <-> id_Index id <> StorageIndexUndefined.
Proof.
  unfold Valid, StorageIDUndefined, StorageIndexUndefined.
  destruct id as [a i]. cbn [id_Index].
  destruct (decide (NewStorageID a i = NewStorageID zero8 zero8)) as [E|E].
  - injection E as -> ->. split; [done|]. intros H. by destruct H.
  - by destruct (decide (i = zero8)) as [->|Hi].
Qed.

(** [Valid] accepts a handle exactly when its index is not the undefined
    index, whatever its address: a handle with the undefined address and
    another index is valid.  Of its two errors, [ErrStorageID] is for the
    undefined handle alone. *)
Theorem Valid_iff (id : StorageID) :
  (Valid id = None <-> id_Index id <> StorageIndexUndefined) /\
  (Valid id = Some ErrStorageID <-> id = StorageIDUndefined) /\
  (Valid id = Some ErrStorageIndex <->
   id_Index id = StorageIndexUndefined /\ id_Address id <> AddressUndefined).
Proof.
  unfold Valid, StorageIDUndefined, StorageIndexUndefined, AddressUndefined.
  destruct id as [a i]. cbn [id_Index id_Address].
  destruct (decide (NewStorageID a i = NewStorageID zero8 zero8)) as [E|E].
  - injection E as -> ->. naive_solver.
  - destruct (decide (i = zero8)) as [->|Hi].
    + assert (a <> zero8) by congruence. naive_solver.
    + naive_solver.
Qed.

(** [Next] adds one modulo [2^64] to the big-endian value of the index; it
    never returns its argument, and different indices have different
    successors. *)
Theorem Next_successor_mod (i j : StorageIndex) :
  Uint64 (Next i) = (Uint64 i + 1) mod 2 ^ 64 /\
  Next i <> i /\
  (Next i = Next j -> i = j).
Proof.
  assert (HN : forall k, Uint64 (Next k) = (Uint64 k + 1) mod 2 ^ 64).
  { intros k. unfold Next, uint64_succ, uint64_modulus.
    apply Uint64_PutUint64. unfold uint64_modulus.
    apply Z.mod_pos_bound. lia. }
  pose proof (Uint64_range i) as Hi. pose proof (Uint64_range j) as Hj.
  unfold uint64_modulus in *.
  split; [done|]. split.
  - intros Heq. apply (f_equal Uint64) in Heq. rewrite HN in Heq.
    destruct (decide (Uint64 i = 2 ^ 64 - 1)) as [E|E].
    + rewrite E in Heq. replace (2 ^ 64 - 1 + 1) with (1 * 2 ^ 64) in Heq by lia.
      rewrite Z.mod_mul in Heq by lia. lia.
    + rewrite Z.mod_small in Heq by lia. lia.
  - intros Heq. apply (f_equal Uint64) in Heq. rewrite !HN in Heq.
    apply Uint64_inj.
    destruct (decide (Uint64 i = 2 ^ 64 - 1)) as [Ei|Ei];
      destruct (decide (Uint64 j = 2 ^ 64 - 1)) as [Ej|Ej].
    + lia.
    + rewrite Ei in Heq. replace (2 ^ 64 - 1 + 1) with (1 * 2 ^ 64) in Heq by lia.
      rewrite Z.mod_mul in Heq by lia. rewrite Z.mod_small in Heq by lia. lia.
    + rewrite Ej in Heq. replace (2 ^ 64 - 1 + 1) with (1 * 2 ^ 64) in Heq by lia.
      rewrite Z.mod_mul in Heq by lia. rewrite Z.mod_small in Heq by lia. lia.
    + rewrite !Z.mod_small in Heq by lia. lia.
Qed.

End raw_facts.

(** ** The order of handles is the order of their raw bytes *)

Section lex_facts.
Import RawID.

Lemma byte_eq_Z (x y : byte) : x = y <-> byte_to_Z x = byte_to_Z y.
Proof. split; [by intros ->|apply byte_to_Z_inj]. Qed.

Lemma lex_lt_Uint64 (a b : Bytes8) :
  lex_lt (to_list8 a) (to_list8 b) <-> Uint64 a < Uint64 b.
Proof.
  destruct a as [[[[[[[a0 a1] a2] a3] a4] a5] a6] a7].
  destruct b as [[[[[[[b0 b1] b2] b3] b4] b5] b6] b7].
  cbn [to_list8 lex_lt]. unfold Uint64. rewrite !byte_eq_Z.
  pose proof (byte_to_Z_range a0). pose proof (byte_to_Z_range a1).
  pose proof (byte_to_Z_range a2). pose proof (byte_to_Z_range a3).
  pose proof (byte_to_Z_range a4). pose proof (byte_to_Z_range a5).
  pose proof (byte_to_Z_range a6). pose proof (byte_to_Z_range a7).
  pose proof (byte_to_Z_range b0). pose proof (byte_to_Z_range b1).
  pose proof (byte_to_Z_range b2). pose proof (byte_to_Z_range b3).
  pose proof (byte_to_Z_range b4). pose proof (byte_to_Z_range b5).
  pose proof (byte_to_Z_range b6). pose proof (byte_to_Z_range b7).
  lia.
Qed.

Lemma lex_lt_app (l1 m1 l2 m2 : list byte) :
  length l1 = length m1 ->
  lex_lt (l1 ++ l2) (m1 ++ m2) <-> lex_lt l1 m1 \/ (l1 = m1 /\ lex_lt l2 m2).
Proof.
  revert m1. induction l1 as [|x l1 IH]; intros [|y m1] Hlen; try done.
  - simpl. naive_solver.
  - injection Hlen as Hlen. cbn [app lex_lt]. rewrite (IH m1 Hlen).
    naive_solver.
Qed.

Lemma handle_lt_lex_lt (a b : StorageID) :
  handle_lt a b -> lex_lt (raw_bytes a) (raw_bytes b).
Proof.
  unfold raw_bytes, handle_lt, AddressAsUint64, IndexAsUint64.
  rewrite lex_lt_app by (by rewrite !to_list8_length).
  rewrite !lex_lt_Uint64.
  intros [?|[Heq ?]]; [by left|].
  right. split; [|done]. f_equal. by apply Uint64_inj.
Qed.

(** The comparison of [sortedOwnedDeltaKeys] orders two handles as the
    bytewise lexicographic order orders their 16 raw bytes. *)
Theorem less_is_lexicographic_on_raw_bytes (a b : StorageID) :
  less a b = true <-> lex_lt (raw_bytes a) (raw_bytes b).
Proof.
  rewrite less_handle_lt. unfold raw_bytes, handle_lt.
  rewrite lex_lt_app by (by rewrite !to_list8_length).
  unfold AddressAsUint64, IndexAsUint64. rewrite !lex_lt_Uint64.
  split; intros [?|[Heq ?]]; [by left| |by left|].
  - right. split; [|done]. f_equal. by apply Uint64_inj.
  - right. split; [|done]. apply to_list8_inj in Heq. by rewrite Heq.
Qed.

End lex_facts.

(** ** The in-memory base storage *)

Section inmem_facts.
Import InMemReport.
Context {error : Type}.
Implicit Types s : InMemBaseStorage.

(** Store then retrieve: the segment stored under a handle is what a
    retrieve of that handle returns, found, also when it is the nil slice;
    retrieves of other handles return what they returned before. *)
Theorem InMem_Store_then_Retrieve s id id' data :
  (InMem.Retrieve (error:=error) id (InMem.Store (error:=error) id data s).2).1
    = (data, true, None) /\
  (id' <> id ->
   (InMem.Retrieve (error:=error) id' (InMem.Store (error:=error) id data s).2).1
   = (InMem.Retrieve (error:=error) id' s).1).
Proof.
  unfold InMem.Retrieve, InMem.Store. cbn. split.
  - by rewrite lookup_insert_eq.
  - intros Hne. rewrite lookup_insert_ne by done.
    by destruct (segments s !! id').
Qed.

(** Remove then retrieve: a removed handle is not found, and no error is
    returned, whether or not it was stored; retrieves of other handles
    return what they returned before. *)
Theorem InMem_Remove_then_Retrieve s id id' :
  (InMem.Remove (error:=error) id s).1 = None /\
  (InMem.Retrieve (error:=error) id (InMem.Remove (error:=error) id s).2).1
    = (None, false, None) /\
  (id' <> id ->
   (InMem.Retrieve (error:=error) id' (InMem.Remove (error:=error) id s).2).1
   = (InMem.Retrieve (error:=error) id' s).1).
Proof.
  unfold InMem.Retrieve, InMem.Remove. cbn. split; [done|]. split.
  - by rewrite lookup_delete_eq.
  - intros Hne. rewrite lookup_delete_ne by done.
    by destruct (segments s !! id').
Qed.

(** The number of segments: a store adds one when the handle is new and
    none when it overwrites; a remove takes one away when the handle is
    stored and none otherwise; a retrieve changes nothing. *)
Theorem InMem_SegmentCounts_step s id data :
  InMem.SegmentCounts (InMem.Store (error:=error) id data s).2
    = match segments s !! id with
      | Some _ => InMem.SegmentCounts s
      | None => InMem.SegmentCounts s + 1
      end /\
  InMem.SegmentCounts (InMem.Remove (error:=error) id s).2
    = match segments s !! id with
      | Some _ => InMem.SegmentCounts s - 1
      | None => InMem.SegmentCounts s
      end /\
  InMem.SegmentCounts (InMem.Retrieve (error:=error) id s).2
    = InMem.SegmentCounts s.
Proof.
  unfold InMem.SegmentCounts, InMem.Store, InMem.Remove, InMem.Retrieve.
  split; [|split].
  - cbn. rewrite map_size_insert.
    destruct (segments s !! id) as [d|] eqn:E; [done|]. lia.
  - cbn. rewrite map_size_delete.
    destruct (segments s !! id) as [d|] eqn:E; [|done].
    assert (size (segments s) <> 0)%nat.
    { intros H0. apply map_size_empty_iff in H0. rewrite H0 in E.
      by rewrite lookup_empty in E. }
    unfold pred. destruct (size (segments s)); [done|]. lia.
  - by destruct (segments s !! id).
Qed.

Lemma int_add_range a b : - 2 ^ 63 <= int_add a b < 2 ^ 63.
Proof.
  unfold int_add. pose proof (Z.mod_pos_bound (a + b + 2 ^ 63) (2 ^ 64)).
  change (2 ^ 63) with 9223372036854775808 in *.
  change (2 ^ 64) with 18446744073709551616 in *. lia.
Qed.

Lemma int_add_small a b :
  - 2 ^ 63 <= a + b < 2 ^ 63 -> int_add a b = a + b.
Proof.
  unfold int_add. change (2 ^ 63) with 9223372036854775808.
  change (2 ^ 64) with 18446744073709551616.
  intros H. rewrite Z.mod_small; lia.
Qed.

Lemma int_add_int_add_l a b c : int_add (int_add a b) c = int_add (a + b) c.
Proof.
  unfold int_add.
  replace ((a + b + 2 ^ 63) mod 2 ^ 64 - 2 ^ 63 + c + 2 ^ 63)
    with ((a + b + 2 ^ 63) mod 2 ^ 64 + c) by lia.
  rewrite Zplus_mod_idemp_l. f_equal. f_equal. lia.
Qed.

Lemma int_add_swap a b c : int_add (int_add a b) c = int_add (int_add a c) b.
Proof. rewrite !int_add_int_add_l. unfold int_add. do 2 f_equal. lia. Qed.

Lemma Size_range s : - 2 ^ 63 <= Size s < 2 ^ 63.
Proof.
  unfold Size.
  apply (map_fold_weak_ind (fun r _ => - 2 ^ 63 <= r < 2 ^ 63)).
  - lia.
  - intros k seg m r _ _. apply int_add_range.
Qed.

(** The size: that of a new storage is zero; storing under a new handle
    adds the length of the segment, in the arithmetic of [int]; removing a
    stored handle takes exactly the length of its segment away again. *)
Theorem InMem_Size_step s id data old :
  Size NewInMemBaseStorage = 0 /\
  (segments s !! id = None ->
   Size (InMem.Store (error:=error) id data s).2 = int_add (Size s) (len data)) /\
  (segments s !! id = Some old ->
   int_add (Size (InMem.Remove (error:=error) id s).2) (len old) = Size s).
Proof.
  split; [done|]. unfold Size, InMem.Store, InMem.Remove. cbn. split.
  - intros Hnone. rewrite map_fold_insert_L; [done| |done].
    intros j1 j2 z1 z2 y _ _ _. apply int_add_swap.
  - intros Hold. symmetry.
    apply (map_fold_delete_L
             (fun (_ : StorageID) (seg : slice_byte) (total : Z) =>
                int_add total (len seg)) 0 id old (segments s)); [|done].
    intros j1 j2 z1 z2 y _ _ _. apply int_add_swap.
Qed.

(** The usage report: from a new storage on, whatever calls are made, the
    handles counted as touched are exactly those counted as returned or as
    updated; so the touched count lies between each of the two other counts
    and their sum. *)
Theorem InMem_report_touched (ops : list InMemOp)
    (segs : gmap StorageID slice_byte) :
  segmentsTouched (run_InMemOps ops (NewInMemBaseStorageFromMap segs))
    = segmentsReturned (run_InMemOps ops (NewInMemBaseStorageFromMap segs))
      ∪ segmentsUpdated (run_InMemOps ops (NewInMemBaseStorageFromMap segs)) /\
  SegmentsReturned (run_InMemOps ops (NewInMemBaseStorageFromMap segs))
    <= SegmentsTouched (run_InMemOps ops (NewInMemBaseStorageFromMap segs)) /\
  SegmentsUpdated (run_InMemOps ops (NewInMemBaseStorageFromMap segs))
    <= SegmentsTouched (run_InMemOps ops (NewInMemBaseStorageFromMap segs)) /\
  SegmentsTouched (run_InMemOps ops (NewInMemBaseStorageFromMap segs))
    <= SegmentsReturned (run_InMemOps ops (NewInMemBaseStorageFromMap segs))
       + SegmentsUpdated (run_InMemOps ops (NewInMemBaseStorageFromMap segs)).
Proof.
  assert (Hinv : forall ops s,
            segmentsTouched s = segmentsReturned s ∪ segmentsUpdated s ->
            segmentsTouched (run_InMemOps ops s)
            = segmentsReturned (run_InMemOps ops s)
              ∪ segmentsUpdated (run_InMemOps ops s)).
  { clear. intros ops. induction ops as [|o ops IH]; intros s Hs; [done|].
    unfold run_InMemOps in *. cbn [foldl]. apply IH.
    destruct o as [id data|id|id|a|];
      unfold run_InMemOp, InMem.Store, InMem.Retrieve, InMem.Remove,
        InMem.GenerateStorageID, ResetReporter.
    - cbn. rewrite Hs. set_solver.
    - destruct (segments s !! id); cbn; rewrite Hs; set_solver.
    - cbn. rewrite Hs. set_solver.
    - done.
    - cbn. set_solver. }
  specialize (Hinv ops (NewInMemBaseStorageFromMap segs)).
  unfold SegmentsReturned, SegmentsUpdated, SegmentsTouched.
  set (s := run_InMemOps ops (NewInMemBaseStorageFromMap segs)) in *.
  assert (Ht : segmentsTouched s = segmentsReturned s ∪ segmentsUpdated s).
  { apply Hinv. cbn. set_solver. }
  split; [done|]. rewrite Ht.
  pose proof (subseteq_size (segmentsReturned s)
                (segmentsReturned s ∪ segmentsUpdated s) ltac:(set_solver)).
  pose proof (subseteq_size (segmentsUpdated s)
                (segmentsReturned s ∪ segmentsUpdated s) ltac:(set_solver)).
  pose proof (size_union_alt (segmentsReturned s) (segmentsUpdated s)) as Hu.
  pose proof (subseteq_size (segmentsUpdated s ∖ segmentsReturned s)
                (segmentsUpdated s) ltac:(set_solver)).
  lia.
Qed.

End inmem_facts.

(** ** The persistent slab storage: how its operations compose *)

Section persistent_more.
Context {error Slab B : Type} `{!BaseStorage error B}.
Variable Encode : option Slab -> slice_byte * option error.
Variable DecodeSlab : StorageID -> slice_byte -> option Slab * option error.

Implicit Types s : PersistentSlabStorage B Slab.

(** Read your writes: with auto-commit unset, a store or a remove returns
    no error, and a retrieve of the same handle right after answers from the
    deltas, without touching the base storage or the cache: the stored slab,
    found unless it is nil, after a store; not found after a remove. *)
Theorem Retrieve_after_pending_write s id slab :
  autoCommit s = false ->
  (Store Encode id slab s).1 = None /\
  Retrieve DecodeSlab id (Store Encode id slab s).2
    = ((slab, not_nil slab, None), (Store Encode id slab s).2) /\
  (Remove id s).1 = None /\
  Retrieve DecodeSlab id (Remove id s).2
    = ((None, false, None), (Remove id s).2).
Proof.
  intros Ha. unfold Store, Remove, Retrieve. rewrite Ha. cbn.
  by rewrite !lookup_insert_eq.
Qed.

Lemma run_Ops_frame ops s :
  autoCommit s = false ->
  set_deltas (deltas s) (run_Ops Encode ops s) = s.
Proof.
  revert s. induction ops as [|o ops IH]; intros s Ha.
  - by destruct s.
  - unfold run_Ops in *. cbn [foldl].
    destruct (run_Op_no_auto_commit Encode o s Ha) as (_ & _ & _ & Ha').
    specialize (IH _ Ha').
    assert (Hstep : set_deltas (deltas s) (run_Op Encode o s).2 = s).
    { destruct o as [id slab|id]; unfold run_Op, Store, Remove; rewrite Ha;
        by destruct s. }
    transitivity (set_deltas (deltas s)
                    (set_deltas (deltas (run_Op Encode o s).2)
                       (foldl (fun s0 o0 => (run_Op Encode o0 s0).2)
                              (run_Op Encode o s).2 ops))); [reflexivity|].
    by rewrite IH.
Qed.

(** Abort: with auto-commit unset, dropping the deltas after any sequence
    of store and remove calls gives the storage that dropping them before
    the sequence gives; when there were no deltas before, it gives the
    storage back as it was. *)
Theorem DropDeltas_undoes_pending_writes ops s :
  autoCommit s = false ->
  DropDeltas (run_Ops Encode ops s) = DropDeltas s /\
  (deltas s = ∅ -> DropDeltas (run_Ops Encode ops s) = s).
Proof.
  intros Ha. pose proof (run_Ops_frame ops s Ha) as Hf.
  assert (H1 : DropDeltas (run_Ops Encode ops s) = DropDeltas s).
  { rewrite <- Hf at 2. reflexivity. }
  split; [done|]. intros Hd. rewrite H1. unfold DropDeltas.
  rewrite <- Hd. by destruct s.
Qed.

(** Read-through cache: when a handle has no delta and a retrieve of it
    returns no error, a second retrieve returns the same slab without
    touching the storage, and reports it found, also when the first one,
    having asked the base storage, reported it not found. *)
Theorem Retrieve_twice s id :
  deltas s !! id = None ->
  (Retrieve DecodeSlab id s).1.2 = None ->
  Retrieve DecodeSlab id (Retrieve DecodeSlab id s).2
    = (((Retrieve DecodeSlab id s).1.1.1, true, None),
       (Retrieve DecodeSlab id s).2).
Proof.
  intros Hd. unfold Retrieve at 1 3 4 5. rewrite Hd.
  destruct (cache s !! id) as [slab|] eqn:Hc.
  - intros _. cbn. unfold Retrieve. by rewrite Hd, Hc.
  - destruct (base_Retrieve id (baseStorage s)) as [[[bs ok] [e|]] b].
    + cbn. done.
    + destruct (DecodeSlab id bs) as [slab [e|]]; cbn; [done|].
      intros _. unfold Retrieve. cbn. by rewrite Hd, lookup_insert_eq.
Qed.

Lemma Commit_loop_cache_slab keys s id slab :
  (Commit_loop Encode keys s).1 = None ->
  id ∈ keys ->
  index_map (deltas s) id = Some slab ->
  cache (Commit_loop Encode keys s).2 !! id = Some (Some slab).
Proof.
  revert s. induction keys as [|k keys IH]; intros s He Hin Hd.
  - by apply elem_of_nil in Hin.
  - cbn [Commit_loop] in *.
    destruct (decide (id ∈ keys)) as [Hk|Hk].
    + destruct (index_map (deltas s) k) as [sl|].
      * destruct (Encode (Some sl)) as [bs [e|]]; [done|].
        destruct (base_Store k bs (baseStorage s)) as [[e|] b]; [done|].
        by apply IH.
      * destruct (base_Remove k (baseStorage s)) as [[e|] b]; [done|].
        by apply IH.
    + apply elem_of_cons in Hin as [->|Hin]; [|done]. rewrite Hd in *.
      destruct (Encode (Some slab)) as [bs [e|]]; [done|].
      destruct (base_Store k bs (baseStorage s)) as [[e|] b]; [done|].
      rewrite Commit_loop_cache by done. cbn. by rewrite lookup_insert_eq.
Qed.

Lemma Commit_loop_cache_tombstone keys s id :
  index_map (deltas s) id = None ->
  cache (Commit_loop Encode keys s).2 !! id = cache s !! id.
Proof.
  revert s. induction keys as [|k keys IH]; intros s Hd; [done|].
  cbn [Commit_loop].
  destruct (index_map (deltas s) k) as [sl|] eqn:Hk.
  - destruct (Encode (Some sl)) as [bs [e|]]; [done|].
    destruct (base_Store k bs (baseStorage s)) as [[e|] b]; [done|].
    rewrite IH by done. cbn. rewrite lookup_insert_ne; [done|]. congruence.
  - destruct (base_Remove k (baseStorage s)) as [[e|] b]; [done|].
    by rewrite IH.
Qed.

Lemma Commit_state s :
  (Commit Encode s).1 = None ->
  (Commit Encode s).2
  = set_deltas ∅ (Commit_loop Encode (sortedOwnedDeltaKeys s) s).2.
Proof.
  unfold Commit. by destruct (Commit_loop _ _ _) as [[e|] s'].
Qed.

Lemma Commit_cache_any s :
  cache (Commit Encode s).2
  = cache (Commit_loop Encode (sortedOwnedDeltaKeys s) s).2.
Proof.
  unfold Commit. by destruct (Commit_loop _ _ _) as [[e|] s'].
Qed.

Lemma Commit_fst_any s :
  (Commit Encode s).1 = (Commit_loop Encode (sortedOwnedDeltaKeys s) s).1.
Proof.
  unfold Commit. by destruct (Commit_loop _ _ _) as [[e|] s'].
Qed.

(** After a successful commit every slab of an owned delta is in the cache:
    a retrieve of its handle returns it, found, and leaves the storage
    alone. *)
Theorem Retrieve_after_Commit s id slab :
  (Commit Encode s).1 = None ->
  id_Address id <> AddressUndefined ->
  deltas s !! id = Some (Some slab) ->
  Retrieve DecodeSlab id (Commit Encode s).2
    = ((Some slab, true, None), (Commit Encode s).2).
Proof.
  intros He Hown Hd.
  assert (Hc : cache (Commit Encode s).2 !! id = Some (Some slab)).
  { rewrite Commit_cache_any. apply Commit_loop_cache_slab.
    - by rewrite <- Commit_fst_any.
    - apply elem_of_sortedOwnedDeltaKeys. by rewrite Hd.
    - unfold index_map. by rewrite Hd. }
  unfold Retrieve. rewrite Hc. rewrite (Commit_state s He) at 1. cbn.
  by rewrite lookup_empty.
Qed.

(** A commit does not evict: when a handle with a tombstone in the deltas
    has an entry in the cache, the entry is still there after a successful
    commit, and a retrieve of the handle returns it, found, although the
    commit has removed the handle from the base storage. *)
Theorem Retrieve_after_committed_Remove s id slab :
  (Commit Encode s).1 = None ->
  deltas s !! id = Some None ->
  cache s !! id = Some slab ->
  Retrieve DecodeSlab id (Commit Encode s).2
    = ((slab, true, None), (Commit Encode s).2).
Proof.
  intros He Hd Hcache.
  assert (Hc : cache (Commit Encode s).2 !! id = Some slab).
  { rewrite Commit_cache_any, Commit_loop_cache_tombstone; [done|].
    unfold index_map. by rewrite Hd. }
  unfold Retrieve. rewrite Hc. rewrite (Commit_state s He) at 1. cbn.
  by rewrite lookup_empty.
Qed.

(** Nothing to commit: with empty deltas, [Commit] returns no error and
    leaves the storage as it is, and so does [FastCommit], with any number of
    workers, even none; so a commit that follows a successful commit does
    nothing. *)
Theorem Commit_empty_deltas s numWorkers arrival :
  (deltas s = ∅ ->
   Commit Encode s = (None, s) /\
   FastCommit Encode numWorkers arrival s = Some (None, s)) /\
  ((Commit Encode s).1 = None ->
   Commit Encode (Commit Encode s).2 = (None, (Commit Encode s).2)).
Proof.
  assert (Hempty : forall s' : PersistentSlabStorage B Slab,
            deltas s' = ∅ ->
            Commit Encode s' = (None, s') /\
            FastCommit Encode numWorkers arrival s' = Some (None, s')).
  { intros s' Hd.
    assert (Hk : sortedOwnedDeltaKeys s' = []).
    { unfold sortedOwnedDeltaKeys. by rewrite Hd, map_to_list_empty. }
    unfold Commit, FastCommit. rewrite Hk. cbn.
    rewrite decide_False by (by intros [_ ?]). cbn.
    rewrite <- Hd. by destruct s'. }
  split; [apply Hempty|].
  intros He. apply Hempty. by rewrite (Commit_state s He).
Qed.

(** With auto-commit set, a remove that succeeded leaves its tombstone in
    the deltas, and a store does not take it away: after the remove and a
    successful store of the same handle, a retrieve of the handle still
    reports not found. *)
Theorem Retrieve_after_auto_commit_Remove_Store s id slab :
  autoCommit s = true ->
  (Remove id s).1 = None ->
  (Store Encode id slab (Remove id s).2).1 = None ->
  (Retrieve DecodeSlab id (Store Encode id slab (Remove id s).2).2).1
    = (None, false, None).
Proof.
  intros Ha. unfold Remove, Store. rewrite Ha.
  destruct (base_Remove id (baseStorage s)) as [[e|] b]; [done|].
  cbn. rewrite Ha. intros _.
  destruct (Encode slab) as [bs [e|]]; [done|].
  destruct (base_Store id bs b) as [[e|] b']; [done|].
  intros _. unfold Retrieve. cbn. by rewrite lookup_insert_eq.
Qed.

End persistent_more.

(** ** The persistent slab storage over the in-memory base storage *)

Section persistent_inmem.
Context {error Slab : Type}.
Variable Encode : option Slab -> slice_byte * option error.
Variable DecodeSlab : StorageID -> slice_byte -> option Slab * option error.

Implicit Types s : PersistentSlabStorage InMemBaseStorage Slab.

(** What the deltas [d] ask the base storage to hold under [id]. *)
Lemma Commit_loop_InMem_segments keys s id :
  (Commit_loop Encode keys s).1 = None ->
  segments (baseStorage (Commit_loop Encode keys s).2) !! id
  = if decide (id ∈ keys) then
      match index_map (deltas s) id with
      | None => None
      | Some slab => Some (Encode (Some slab)).1
      end
    else segments (baseStorage s) !! id.
Proof.
  revert s. induction keys as [|k keys IH]; intros s He.
  - rewrite decide_False; [done|]. apply not_elem_of_nil.
  - cbn [Commit_loop] in *.
    cbn [base_Store base_Remove InMemBaseStorage_BaseStorage] in *.
    unfold InMem.Store, InMem.Remove in *.
    destruct (index_map (deltas s) k) as [sl|] eqn:Hk.
    + destruct (Encode (Some sl)) as [bs [e|]] eqn:Hbs; [done|].
      cbn [fst snd] in *. rewrite IH by done. cbn.
      destruct (decide (id ∈ keys)) as [Hin|Hin].
      * rewrite decide_True; [done|]. by right.
      * destruct (decide (id = k)) as [->|Hne].
        -- rewrite decide_True by (by left).
           by rewrite Hk, Hbs, lookup_insert_eq.
        -- rewrite decide_False by (by intros [?|?]%elem_of_cons).
           by rewrite lookup_insert_ne.
    + cbn [fst snd] in *. rewrite IH by done. cbn.
      destruct (decide (id ∈ keys)) as [Hin|Hin].
      * rewrite decide_True; [done|]. by right.
      * destruct (decide (id = k)) as [->|Hne].
        -- rewrite decide_True by (by left).
           by rewrite Hk, lookup_delete_eq.
        -- rewrite decide_False by (by intros [?|?]%elem_of_cons).
           by rewrite lookup_delete_ne.
Qed.

Lemma Commit_InMem_segments s id :
  (Commit Encode s).1 = None ->
  segments (baseStorage (Commit Encode s).2) !! id
  = if decide (id ∈ sortedOwnedDeltaKeys s) then
      match index_map (deltas s) id with
      | None => None
      | Some slab => Some (Encode (Some slab)).1
      end
    else segments (baseStorage s) !! id.
Proof.
  intros He. rewrite (Commit_state Encode s He). cbn.
  apply Commit_loop_InMem_segments. by rewrite <- Commit_fst_any.
Qed.

(** A successful commit brings the in-memory base storage in line with the
    owned deltas: it holds the encoding of every slab, it holds nothing
    under a handle with a tombstone, and under every other handle, among
    them the handles of the undefined address, it holds what it held. *)
Theorem Commit_persists_deltas s id :
  (Commit Encode s).1 = None ->
  (forall slab,
     id_Address id <> AddressUndefined -> deltas s !! id = Some (Some slab) ->
     segments (baseStorage (Commit Encode s).2) !! id
     = Some (Encode (Some slab)).1) /\
  (id_Address id <> AddressUndefined -> deltas s !! id = Some None ->
   segments (baseStorage (Commit Encode s).2) !! id = None) /\
  (id_Address id = AddressUndefined \/ deltas s !! id = None ->
   segments (baseStorage (Commit Encode s).2) !! id
   = segments (baseStorage s) !! id).
Proof.
  intros He. rewrite (Commit_InMem_segments s id He).
  split; [|split].
  - intros slab Hown Hd. rewrite decide_True.
    + unfold index_map. by rewrite Hd.
    + apply elem_of_sortedOwnedDeltaKeys. by rewrite Hd.
  - intros Hown Hd. rewrite decide_True.
    + unfold index_map. by rewrite Hd.
    + apply elem_of_sortedOwnedDeltaKeys. by rewrite Hd.
  - intros Hno. rewrite decide_False; [done|].
    intros [[d Hd] Hown]%elem_of_sortedOwnedDeltaKeys.
    destruct Hno as [?|Hn]; [done|]. by rewrite Hn in Hd.
Qed.

(** Commit, drop the cache, retrieve: when the decoder gives back the slab
    from its encoding, a slab of an owned delta is retrieved, found, from
    the base storage after a successful commit and a drop of the cache. *)
Theorem Retrieve_after_Commit_and_DropCache s id slab :
  (Commit Encode s).1 = None ->
  id_Address id <> AddressUndefined ->
  deltas s !! id = Some (Some slab) ->
  DecodeSlab id (Encode (Some slab)).1 = (Some slab, None) ->
  (Retrieve DecodeSlab id (DropCache (Commit Encode s).2)).1
    = (Some slab, true, None).
Proof.
  intros He Hown Hd Hdec.
  assert (Hseg : segments (baseStorage (Commit Encode s).2) !! id
                 = Some (Encode (Some slab)).1).
  { rewrite (Commit_InMem_segments s id He), decide_True.
    - unfold index_map. by rewrite Hd.
    - apply elem_of_sortedOwnedDeltaKeys. by rewrite Hd. }
  unfold Retrieve, DropCache. cbn [deltas cache set_cache].
  rewrite (Commit_state Encode s He) at 1. cbn [deltas set_deltas].
  rewrite !lookup_empty.
  cbn [baseStorage set_cache base_Retrieve InMemBaseStorage_BaseStorage].
  unfold InMem.Retrieve. rewrite Hseg. cbn. by rewrite Hdec.
Qed.

Lemma RawID_Valid_None (id : StorageID) :
  id_Index id <> StorageIndexUndefined -> RawID.Valid id = None.
Proof. apply Valid_None_iff. Qed.

(** Allocated handles are valid: below the wrap-around of its counter an
    allocation returns a handle that [Valid] accepts, also for the undefined
    address; with the temporary counter at [2^64 - 1] the allocation for the
    undefined address returns, without an error, the undefined handle,
    which [Valid] rejects. *)
Theorem GenerateStorageID_Valid s a :
  (0 <= tempStorageIndex s ->
   allocation_counter s a < 2 ^ 64 - 1 ->
   RawID.Valid (GenerateStorageID (error:=error) a s).1.1 = None) /\
  (tempStorageIndex s = 2 ^ 64 - 1 ->
   (GenerateStorageID (error:=error) AddressUndefined s).1
     = (StorageIDUndefined, None) /\
   RawID.Valid (GenerateStorageID (error:=error) AddressUndefined s).1.1
     = Some RawID.ErrStorageID).
Proof.
  split.
  - intros Ht Hlt.
    destruct (GenerateStorageID_step (error:=error) s a Ht Hlt)
      as (_ & _ & Hidx & _).
    apply RawID_Valid_None. intros Hz.
    unfold IndexAsUint64 in Hidx. rewrite Hz in Hidx.
    pose proof (allocation_counter_nonneg s a Ht).
    change (Uint64 StorageIndexUndefined) with 0 in Hidx. lia.
  - intros Ht.
    assert (H1 : (GenerateStorageID (error:=error) AddressUndefined s).1
                 = (StorageIDUndefined, None)).
    { unfold GenerateStorageID. rewrite decide_True by done. cbn.
      by rewrite Ht. }
    split; [done|]. by rewrite H1.
Qed.

End persistent_inmem.

(** ** The default digester: building, memo and prefixes *)

Section digester_more.
Import Digester DigestWords.
Context {Value E : Type}.
Variable circlehash_Hash64 : slice_byte -> Z -> Z.
Variable blake3_Sum256 : slice_byte -> Bytes32.

Lemma Digest_sound (bd : basicDigester) (level : N) :
  memo_sound blake3_Sum256 bd ->
  (level < 4)%N ->
  (Digest (E:=E) blake3_Sum256 level bd).1
    = (level_digest blake3_Sum256 bd level, None) /\
  memo_sound blake3_Sum256 (Digest (E:=E) blake3_Sum256 level bd).2 /\
  msg (Digest (E:=E) blake3_Sum256 level bd).2 = msg bd /\
  circleHash64 (Digest (E:=E) blake3_Sum256 level bd).2 = circleHash64 bd.
Proof.
  intros Hm Hl. unfold Digest, Levels. rewrite decide_False by lia.
  assert (Hcases : level = 0%N \/ level = 1%N \/ level = 2%N \/ level = 3%N)
    by lia.
  assert (Hstep :
    let bd' :=
      if decide (blake3Hash bd = emptyBlake3Hash)
      then let '(s0, s1, s2, s3) := blake3_Sum256 (msg bd) in
           mkBasicDigester (circleHash64 bd)
             (Uint64 s0, Uint64 s1, Uint64 s2, Uint64 s3) (scratch bd) (msg bd)
      else bd in
    blake3Hash bd' = sum_words (blake3_Sum256 (msg bd)) /\
    msg bd' = msg bd /\ circleHash64 bd' = circleHash64 bd).
  { cbn. destruct (decide (blake3Hash bd = emptyBlake3Hash)) as [He|He].
    - unfold sum_words. by destruct (blake3_Sum256 (msg bd)) as [[[s0 s1] s2] s3].
    - destruct Hm as [?|Hm]; [done|]. by rewrite Hm. }
  cbn in Hstep. destruct Hstep as (Hb & Hmsg & Hc).
  destruct Hcases as [-> | [-> | [-> | ->] ] ]; cbn [fst snd].
  - done.
  - rewrite Hb. repeat split; [|done..]. right. by rewrite Hb, Hmsg.
  - rewrite Hb. repeat split; [|done..]. right. by rewrite Hb, Hmsg.
  - rewrite Hb. repeat split; [|done..]. right. by rewrite Hb, Hmsg.
Qed.

Lemma Digest_out_of_range_state (bd : basicDigester) (level : N) :
  (4 <= level)%N -> (Digest (E:=E) blake3_Sum256 level bd).2 = bd.
Proof. intros Hl. unfold Digest, Levels. by rewrite decide_True. Qed.

(** The memo does not show: a digester whose memo is empty or holds the
    hash of its message returns, at every level below 4 and without an
    error, the digest of that level, whatever levels have been asked for
    before. *)
Theorem Digest_memo_transparent (bd : basicDigester) (first level : N) :
  memo_sound blake3_Sum256 bd ->
  (level < 4)%N ->
  (Digest (E:=E) blake3_Sum256 level bd).1
    = (level_digest blake3_Sum256 bd level, None) /\
  (Digest (E:=E) blake3_Sum256 level
     (Digest (E:=E) blake3_Sum256 first bd).2).1
    = (level_digest blake3_Sum256 bd level, None).
Proof.
  intros Hm Hl. split; [by apply Digest_sound|].
  destruct (decide (first < 4)%N) as [Hf|Hf].
  - destruct (Digest_sound bd first Hm Hf) as (_ & Hm' & Hmsg & Hc).
    destruct (Digest_sound _ level Hm' Hl) as (-> & _).
    f_equal. unfold level_digest. by rewrite Hmsg, Hc.
  - rewrite Digest_out_of_range_state by lia. by apply Digest_sound.
Qed.

Lemma level_digest_ext (bd bd' : basicDigester) (level : N) :
  msg bd' = msg bd -> circleHash64 bd' = circleHash64 bd ->
  level_digest blake3_Sum256 bd' level = level_digest blake3_Sum256 bd level.
Proof. intros Hm Hc. unfold level_digest. by rewrite Hm, Hc. Qed.

Lemma DigestPrefix_loop_sound (n : nat) (i : N) (prefix : list Digest_t)
    (bd : basicDigester) :
  memo_sound blake3_Sum256 bd ->
  (N.to_nat i + n <= 4)%nat ->
  (DigestPrefix_loop (E:=E) blake3_Sum256 n i prefix bd).1
  = (prefix ++ ((fun k => level_digest blake3_Sum256 bd (N.of_nat k))
                  <$> seq (N.to_nat i) n), None).
Proof.
  revert i prefix bd. induction n as [|n IH]; intros i prefix bd Hm Hle.
  - cbn. by rewrite app_nil_r.
  - cbn [DigestPrefix_loop].
    destruct (Digest_sound bd i Hm ltac:(lia)) as (Hd & Hm' & Hmsg & Hc).
    destruct (Digest blake3_Sum256 i bd) as [[d e] bd'].
    cbn [fst snd] in *. injection Hd as -> ->.
    rewrite IH by (done || lia).
    replace (N.to_nat (i + 1)) with (S (N.to_nat i)) by lia.
    cbn [seq fmap list_fmap]. rewrite <- app_assoc. cbn [app].
    rewrite N2Nat.id. do 3 f_equal.
    apply list_fmap_ext. intros _ k _. by apply level_digest_ext.
Qed.

(** Prefixes: for a level up to 4, this bound included, [DigestPrefix]
    returns without an error the digests of the levels below it, in order;
    for a level above 4 it returns the hash-level error and no digest, and
    leaves the digester as it was.  So the prefix of level 4 exists although
    the digest of level 4 does not. *)
Theorem DigestPrefix_levels (bd : basicDigester) (level : N) :
  memo_sound blake3_Sum256 bd ->
  ((level <= 4)%N ->
   (DigestPrefix (E:=E) blake3_Sum256 level bd).1
   = ((fun k => level_digest blake3_Sum256 bd (N.of_nat k))
        <$> seq 0 (N.to_nat level), None)) /\
  ((4 < level)%N ->
   DigestPrefix (E:=E) blake3_Sum256 level bd
   = (([], Some (HashLevelError level 4)), bd)).
Proof.
  intros Hm. unfold DigestPrefix, Levels. split; intros Hl.
  - rewrite decide_False by lia.
    rewrite DigestPrefix_loop_sound by (done || lia). done.
  - by rewrite decide_True.
Qed.

Lemma getBasicDigester_reset (pool : list basicDigester) :
  Forall is_reset pool ->
  is_reset (getBasicDigester pool).1 /\ Forall is_reset (getBasicDigester pool).2.
Proof.
  intros Hp. destruct Hp as [|bd pool Hbd Hp]; cbn; [|done].
  split; [done|constructor].
Qed.

(** The seed and the callback decide how building ends: with a first seed
    word of zero the builder returns the seed error and leaves the pool
    alone, whatever the second word; with another first word and a failing
    callback it returns the callback's error, wrapped, and puts the digester
    back; and the second seed word never matters. *)
Theorem basicDigesterBuilder_Digest_errors (bdb bdb' : basicDigesterBuilder)
    (hip : HashInputProvider) (value : Value) (pool : list basicDigester) :
  (k0 bdb = 0 ->
   basicDigesterBuilder_Digest (E:=E) circlehash_Hash64 bdb hip value pool
   = ((None, Some HashSeedUninitializedError), pool)) /\
  (k0 bdb <> 0 ->
   forall m e,
     hip value (scratch (getBasicDigester pool).1) = (m, Some e) ->
     (basicDigesterBuilder_Digest (E:=E) circlehash_Hash64 bdb hip value pool).1
     = (None, Some (ExternalError e)) /\
     (Forall is_reset pool ->
      Forall is_reset
        (basicDigesterBuilder_Digest (E:=E) circlehash_Hash64
           bdb hip value pool).2)) /\
  (k0 bdb' = k0 bdb ->
   basicDigesterBuilder_Digest (E:=E) circlehash_Hash64 bdb' hip value pool
   = basicDigesterBuilder_Digest (E:=E) circlehash_Hash64 bdb hip value pool).
Proof.
  unfold basicDigesterBuilder_Digest. split; [|split].
  - intros H0. by rewrite decide_True.
  - intros H0 m e Hhip. rewrite decide_False by done.
    destruct (getBasicDigester pool) as [bd pool'] eqn:Hg. cbn in Hhip.
    rewrite Hhip. split; [done|]. intros Hp. cbn.
    apply getBasicDigester_reset in Hp. rewrite Hg in Hp.
    constructor; [by repeat split|apply Hp].
  - intros Hk. by rewrite Hk.
Qed.

(** The digests of a built digester: with a pool of digesters that were
    reset, a first seed word other than zero and a callback that returns the
    message [m], the builder returns a digester whose digest of level 0 is
    the seeded hash of [m] under the first seed word, and whose digests of
    levels 1, 2 and 3 are the first three words of the 256-bit hash of [m];
    the pool still holds reset digesters only. *)
Theorem basicDigesterBuilder_Digest_digests (bdb : basicDigesterBuilder)
    (hip : HashInputProvider) (value : Value) (pool : list basicDigester)
    (m : slice_byte) :
  Forall is_reset pool ->
  k0 bdb <> 0 ->
  hip value (scratch (getBasicDigester pool).1) = (m, None) ->
  exists bd,
    (basicDigesterBuilder_Digest (E:=E) circlehash_Hash64 bdb hip value pool).1
      = (Some bd, None) /\
    Forall is_reset
      (basicDigesterBuilder_Digest (E:=E) circlehash_Hash64 bdb hip value pool).2 /\
    (Digest (E:=E) blake3_Sum256 0 bd).1
      = (circlehash_Hash64 m (k0 bdb), None) /\
    forall level, (1 <= level < 4)%N ->
      (Digest (E:=E) blake3_Sum256 level bd).1
      = (word_at (sum_words (blake3_Sum256 m)) (level - 1), None).
Proof.
  intros Hp H0 Hhip. unfold basicDigesterBuilder_Digest.
  rewrite decide_False by done.
  destruct (getBasicDigester_reset pool Hp) as [Hr Hp'].
  destruct (getBasicDigester pool) as [bd0 pool']. cbn [fst snd] in *.
  rewrite Hhip. destruct Hr as (_ & Hb & _).
  eexists. split; [reflexivity|]. split; [done|].
  assert (Hm : memo_sound blake3_Sum256
                 (mkBasicDigester (circlehash_Hash64 m (k0 bdb))
                    (blake3Hash bd0) (scratch bd0) m)) by (by left).
  split.
  - by destruct (Digest_sound _ 0%N Hm ltac:(lia)) as (-> & _).
  - intros level Hl.
    destruct (Digest_sound _ level Hm ltac:(lia)) as (-> & _).
    unfold level_digest. cbn [msg]. by destruct level; [lia|].
Qed.

End digester_more.

(** ** The basic slab storage *)

Section basic_facts.
Import Basic BasicMore.
Context {error Slab : Type}.
Variable Encode : option Slab -> slice_byte * option error.
Variable DecodeSlab : StorageID -> slice_byte -> option Slab * option error.

Implicit Types s : BasicSlabStorage Slab.

(** Store, retrieve, remove and count on the basic slab storage: a stored
    slab is retrieved, found, also when it is nil; a removed handle is not
    found; the count goes up by one with a store under a new handle and
    stays with a store that overwrites. *)
Theorem Basic_Store_Retrieve_Remove s id slab :
  Basic.Retrieve (error:=error) id (Basic.Store (error:=error) id slab s).2
    = (slab, true, None) /\
  Basic.Retrieve (error:=error) id (Basic.Remove (error:=error) id s).2
    = (None, false, None) /\
  Basic.Count (Basic.Store (error:=error) id slab s).2
    = match Slabs s !! id with
      | Some _ => Basic.Count s
      | None => Basic.Count s + 1
      end.
Proof.
  unfold Basic.Retrieve, Basic.Store, Basic.Remove, Basic.Count. cbn.
  rewrite lookup_insert_eq, lookup_delete_eq, map_size_insert.
  split; [done|]. split; [done|].
  destruct (Slabs s !! id); [done|]. lia.
Qed.

(** [StorageIDs] lists every handle of the storage once, in some order, and
    nothing else; there are as many as [Count] says. *)
Theorem Basic_StorageIDs s :
  NoDup (StorageIDs s) /\
  (forall id, id ∈ StorageIDs s <-> is_Some (Slabs s !! id)) /\
  Z.of_nat (length (StorageIDs s)) = Basic.Count s.
Proof.
  unfold StorageIDs, Basic.Count. split; [|split].
  - apply NoDup_fst_map_to_list.
  - intros id. rewrite list_elem_of_fmap. split.
    + intros [[k v] [-> Hin]]. apply elem_of_map_to_list in Hin. by exists v.
    + intros [v Hv]. exists (id, v). split; [done|].
      by apply elem_of_map_to_list.
  - by rewrite length_fmap, length_map_to_list.
Qed.

Lemma Encode_loop_ok (entries : list (StorageID * option Slab))
    (src : gmap StorageID (option Slab)) (m0 : gmap StorageID slice_byte) :
  (forall id slab, (id, slab) ∈ entries ->
     src !! id = Some slab /\ (Encode slab).2 = None) ->
  exists m,
    Encode_loop Encode entries m0 = (Some m, None) /\
    forall id, m !! id = if decide (id ∈ entries.*1)
                         then (fun slab => (Encode slab).1) <$> src !! id
                         else m0 !! id.
Proof.
  revert m0. induction entries as [|[k v] entries IH]; intros m0 Hall.
  - exists m0. split; [done|]. intros id.
    rewrite decide_False; [done|]. apply not_elem_of_nil.
  - destruct (Hall k v ltac:(by left)) as [Hsrc Hok].
    cbn [Encode_loop]. destruct (Encode v) as [b e] eqn:Hv.
    cbn in Hok. subst e.
    destruct (IH (<[k := b]> m0)) as (m & Hm & Hlook).
    { intros id slab Hin. apply Hall. by right. }
    exists m. split; [done|]. intros id. rewrite Hlook, fmap_cons. cbn [fst].
    destruct (decide (id ∈ entries.*1)) as [Hin|Hin].
    + rewrite decide_True; [done|]. by right.
    + destruct (decide (id = k)) as [->|Hne].
      * rewrite decide_True by (by left).
        rewrite lookup_insert_eq, Hsrc. cbn. by rewrite Hv.
      * rewrite decide_False by (by intros [?|?]%elem_of_cons).
        by rewrite lookup_insert_ne.
Qed.

Lemma Encode_loop_error (entries : list (StorageID * option Slab))
    (m0 : gmap StorageID slice_byte) :
  Exists (fun e => (Encode e.2).2 <> None) entries ->
  exists e, Encode_loop Encode entries m0 = (None, Some e).
Proof.
  revert m0. induction entries as [|[k v] entries IH]; intros m0 Hex.
  - by apply Exists_nil in Hex.
  - cbn [Encode_loop]. destruct (Encode v) as [b [e|]] eqn:Hv; [by exists e|].
    apply Exists_cons in Hex as [Hex|Hex].
    + cbn in Hex. by rewrite Hv in Hex.
    + by apply IH.
Qed.

Lemma Load_loop_ok (entries : list (StorageID * slice_byte))
    (target : gmap StorageID (option Slab)) s :
  (forall id bs, (id, bs) ∈ entries ->
     exists slab, target !! id = Some slab /\ DecodeSlab id bs = (slab, None)) ->
  (Load_loop DecodeSlab entries s).1 = None /\
  storageIndex (Load_loop DecodeSlab entries s).2 = storageIndex s /\
  forall id,
    Slabs (Load_loop DecodeSlab entries s).2 !! id
    = if decide (id ∈ entries.*1) then target !! id else Slabs s !! id.
Proof.
  revert s. induction entries as [|[k bs] entries IH]; intros s Hall.
  - cbn. split; [done|]. split; [done|]. intros id.
    rewrite decide_False; [done|]. apply not_elem_of_nil.
  - destruct (Hall k bs ltac:(by left)) as (slab & Ht & Hdec).
    cbn [Load_loop]. rewrite Hdec.
    destruct (IH (mkBasicSlabStorage (<[k := slab]> (Slabs s)) (storageIndex s)))
      as (He & Hidx & Hlook).
    { intros id b Hin. apply Hall. by right. }
    split; [done|]. split; [done|]. intros id.
    rewrite Hlook, fmap_cons. cbn [fst Slabs].
    destruct (decide (id ∈ entries.*1)) as [Hin|Hin].
    + rewrite decide_True; [done|]. by right.
    + destruct (decide (id = k)) as [->|Hne].
      * rewrite decide_True by (by left). by rewrite lookup_insert_eq.
      * rewrite decide_False by (by intros [?|?]%elem_of_cons).
        by rewrite lookup_insert_ne.
Qed.

(** Encode and load: when every slab of the storage encodes and decodes back
    to itself, [Encode] returns, whatever the order of its iteration, the
    map of the encodings of the slabs, and [Load] of that map into a storage
    without slabs, whatever the order of its iteration, returns no error and
    leaves that storage with the slabs of the first.  When some slab does
    not encode, [Encode] returns an error and no map. *)
Theorem Basic_Encode_then_Load s t
    (entries : list (StorageID * option Slab)) :
  entries ≡ₚ map_to_list (Slabs s) ->
  ((forall id slab, Slabs s !! id = Some slab ->
      (Encode slab).2 = None /\ DecodeSlab id (Encode slab).1 = (slab, None)) ->
   Encode_in Encode entries
     = (Some ((fun slab => (Encode slab).1) <$> Slabs s), None) /\
   (Slabs t = ∅ ->
    forall loaded,
      loaded ≡ₚ map_to_list ((fun slab => (Encode slab).1) <$> Slabs s) ->
      Load_loop DecodeSlab loaded t
      = (None, mkBasicSlabStorage (Slabs s) (storageIndex t)))) /\
  ((exists id slab, Slabs s !! id = Some slab /\ (Encode slab).2 <> None) ->
   exists e, Encode_in Encode entries = (None, Some e)).
Proof.
  intros Hp.
  assert (Hin : forall id slab,
            (id, slab) ∈ entries <-> Slabs s !! id = Some slab).
  { intros id slab. rewrite Hp. apply elem_of_map_to_list. }
  assert (Hkeys : forall id, id ∈ entries.*1 <-> is_Some (Slabs s !! id)).
  { intros id. rewrite list_elem_of_fmap. split.
    - intros [[k v] [-> Hkv]]. apply Hin in Hkv. by exists v.
    - intros [v Hv]. exists (id, v). split; [done|]. by apply Hin. }
  split.
  - intros Hall. split.
    + destruct (Encode_loop_ok entries (Slabs s) ∅) as (m & Hm & Hlook).
      { intros id slab Hkv. apply Hin in Hkv. split; [done|].
        by apply (Hall id slab). }
      unfold Encode_in. rewrite Hm. do 2 f_equal. apply map_eq. intros id.
      rewrite Hlook, lookup_fmap.
      destruct (decide (id ∈ entries.*1)) as [Hk|Hk]; [done|].
      rewrite lookup_empty.
      destruct (Slabs s !! id) as [v|] eqn:Hv; [|done].
      exfalso. apply Hk, Hkeys. by exists v.
    + intros Ht loaded Hl.
      destruct (Load_loop_ok loaded (Slabs s) t) as (He & Hidx & Hlook).
      { intros id bs Hkv. rewrite Hl in Hkv.
        apply elem_of_map_to_list in Hkv. rewrite lookup_fmap in Hkv.
        destruct (Slabs s !! id) as [slab|] eqn:Hs; [|done].
        cbn in Hkv. injection Hkv as <-. exists slab. split; [done|].
        by apply (Hall id slab). }
      destruct (Load_loop DecodeSlab loaded t) as [e t'].
      cbn [fst snd] in *. subst e. f_equal.
      destruct t' as [sl ix]. cbn [Slabs storageIndex] in *. f_equal; [|done].
      apply map_eq. intros id. rewrite Hlook, Ht, lookup_empty.
      destruct (decide (id ∈ loaded.*1)) as [Hk|Hk]; [done|].
      destruct (Slabs s !! id) as [v|] eqn:Hv; [|done].
      exfalso. apply Hk. apply list_elem_of_fmap.
      exists (id, (Encode v).1). split; [done|]. rewrite Hl.
      apply elem_of_map_to_list. by rewrite lookup_fmap, Hv.
  - intros (id & slab & Hs & Hfail). apply Encode_loop_error.
    apply Exists_exists. exists (id, slab). split; [|done].
    by apply Hin.
Qed.

End basic_facts.

(** ** The base storage over a ledger *)

Section ledger_facts.
Import RawID LedgerStore.
Context {error L : Type} `{!Ledger error L}.

Implicit Types s : LedgerBaseStorage L.

(** Ledger addressing: the key of a handle is the byte ["$"] followed by
    the 8 bytes of the index, 9 bytes in all, and owner and key together
    determine the handle: two handles never share a place in the ledger. *)
Theorem prefixedKey_injective (id1 id2 : StorageID) :
  length (prefixedKey id1) = 9%nat /\
  head (prefixedKey id1) = Some x24 /\
  (to_list8 (id_Address id1) = to_list8 (id_Address id2) ->
   prefixedKey id1 = prefixedKey id2 -> id1 = id2).
Proof.
  unfold prefixedKey, LedgerBaseStorageSlabPrefix. cbn [app length head].
  rewrite to_list8_length. split; [done|]. split; [done|].
  intros Ha Hk. injection Hk as Hi.
  apply to_list8_inj in Ha, Hi. destruct id1, id2. cbn in *. by subst.
Qed.

(** A remove is a store of the nil slice: it makes the same call on the
    ledger and ends with the same error and, the byte counter being within
    the range of [int], with the same storage. *)
Lemma Ledger_Remove_is_Store_nil s id :
  - 2 ^ 63 <= bytesStored s < 2 ^ 63 ->
  LedgerStore.Remove id s = LedgerStore.Store id None s.
Proof.
  intros Hr. unfold LedgerStore.Remove, LedgerStore.Store. cbn [len].
  rewrite int_add_small by lia. by rewrite Z.add_0_r.
Qed.

End ledger_facts.

(** ** The key list of a commit, and the base calls of a retrieve *)

Section keys_more.
Import RawID.
Context {error Slab B : Type} `{!BaseStorage error B}.
Variable DecodeSlab : StorageID -> slice_byte -> option Slab * option error.

(** [sortedOwnedDeltaKeys] returns every handle of the deltas whose address
    is not the undefined address, once, and no other handle; the list ascends
    in the bytewise order of the raw handles; and it is the same list
    whatever the order in which the keys of the map are visited. *)
Theorem sortedOwnedDeltaKeys_spec (s : PersistentSlabStorage B Slab)
    (visited : list StorageID) :
  visited ≡ₚ (map_to_list (deltas s)).*1 ->
  sort_Slice less (ownedKeys visited) = sortedOwnedDeltaKeys s /\
  NoDup (sortedOwnedDeltaKeys s) /\
  (forall id, id ∈ sortedOwnedDeltaKeys s <->
              is_Some (deltas s !! id) /\ id_Address id <> AddressUndefined) /\
  StronglySorted (fun a b => lex_lt (raw_bytes a) (raw_bytes b))
                 (sortedOwnedDeltaKeys s).
Proof.
  intros Hp. split; [by apply sortedOwnedDeltaKeys_any_order|].
  split; [apply sortedOwnedDeltaKeys_NoDup|].
  split; [apply elem_of_sortedOwnedDeltaKeys|].
  pose proof (sortedOwnedDeltaKeys_sorted s) as Hs.
  induction Hs as [|a l Hs IH Hall]; constructor; [done|].
  eapply Forall_impl; [exact Hall|]. intros b Hab. cbn in Hab.
  by apply handle_lt_lex_lt.
Qed.

(** A retrieve never writes to the base storage: it makes no call at all
    when the handle has an entry in the deltas or in the cache, and exactly
    one call, a retrieve of the handle, otherwise; and it leaves the deltas
    as they are. *)
Theorem Retrieve_base_calls (s : PersistentSlabStorage (Logged error B) Slab)
    (id : StorageID) :
  deltas (Retrieve DecodeSlab id s).2 = deltas s /\
  (is_Some (deltas s !! id) \/ is_Some (cache s !! id) ->
   calls (baseStorage (Retrieve DecodeSlab id s).2) = calls (baseStorage s)) /\
  (deltas s !! id = None -> cache s !! id = None ->
   exists e,
     calls (baseStorage (Retrieve DecodeSlab id s).2)
     = calls (baseStorage s) ++ [(CallRetrieve id, e)]).
Proof.
  unfold Retrieve.
  destruct (deltas s !! id) as [d|] eqn:Hd.
  { split; [done|]. split; [done|]. done. }
  destruct (cache s !! id) as [c|] eqn:Hc.
  { split; [done|]. split; [done|]. done. }
  cbn [base_Retrieve Logged_BaseStorage].
  destruct (base_Retrieve id (inner (baseStorage s))) as [[[bs ok] e] b].
  cbn [snd].
  split; [|split].
  - destruct e as [e0|]; [done|].
    by destruct (DecodeSlab id bs) as [slab [e1|]].
  - intros [[? ?]|[? ?]]; done.
  - intros _ _. exists e. destruct e as [e0|]; [done|].
    by destruct (DecodeSlab id bs) as [slab [e1|]].
Qed.

End keys_more.

(** ** The further properties at concrete inputs *)

Import MoreExamples.

(** A handle written into a buffer of 20 bytes and read back. *)
Lemma ToRawBytes_then_NewStorageIDFromRawBytes_witness :
  (16 <= length ex_buffer)%nat /\
  RawID.NewStorageIDFromRawBytes (RawID.ToRawBytes (ex_id 258) ex_buffer).2
    = (ex_id 258, None).
Proof.
  assert (H : (16 <= length ex_buffer)%nat) by (cbn; lia).
  split; [exact H|].
  exact (proj2 (proj2 (ToRawBytes_then_NewStorageIDFromRawBytes
                         (ex_id 258) ex_buffer H))).
Defined.

(** The raw bytes of the handle read from a buffer of 20 bytes. *)
Lemma NewStorageIDFromRawBytes_raw_bytes_witness :
  (16 <= length ex_buffer)%nat /\
  RawID.raw_bytes (RawID.NewStorageIDFromRawBytes ex_buffer).1
    = take 16 ex_buffer.
Proof.
  assert (H : (16 <= length ex_buffer)%nat) by (cbn; lia).
  split; [exact H|].
  exact (proj2 (proj2 (NewStorageIDFromRawBytes_raw_bytes ex_buffer)) H).
Defined.

(** A handle of the undefined address with index 1 is valid. *)
Lemma Valid_iff_witness :
  id_Index (ex_temp_id 1) <> StorageIndexUndefined /\
  RawID.Valid (ex_temp_id 1) = None.
Proof.
  assert (H : id_Index (ex_temp_id 1) <> StorageIndexUndefined)
    by (vm_compute; discriminate).
  split; [exact H|]. exact (proj2 (proj1 (Valid_iff (ex_temp_id 1))) H).
Defined.

(** Equal successors, equal indices. *)
Lemma Next_successor_mod_witness :
  Next zero8 = Next zero8 /\ zero8 = zero8.
Proof.
  split; [reflexivity|].
  exact (proj2 (proj2 (Next_successor_mod zero8 zero8)) eq_refl).
Defined.

(** Index 2 before index 256, by number and by bytes. *)
Lemma less_is_lexicographic_on_raw_bytes_witness :
  less (ex_id 2) (ex_id 256) = true /\
  RawID.lex_lt (RawID.raw_bytes (ex_id 2)) (RawID.raw_bytes (ex_id 256)).
Proof.
  assert (H : less (ex_id 2) (ex_id 256) = true) by (vm_compute; reflexivity).
  split; [exact H|].
  exact (proj1 (less_is_lexicographic_on_raw_bytes (ex_id 2) (ex_id 256)) H).
Defined.

(** A store does not disturb the retrieve of another handle. *)
Lemma InMem_Store_then_Retrieve_witness :
  ex_id 1 <> ex_id 2 /\
  (InMem.Retrieve (error:=unit) (ex_id 1)
     (InMem.Store (error:=unit) (ex_id 2) None ex_inmem).2).1
  = (InMem.Retrieve (error:=unit) (ex_id 1) ex_inmem).1.
Proof.
  assert (H : ex_id 1 <> ex_id 2) by (vm_compute; discriminate).
  split; [exact H|].
  exact (proj2 (InMem_Store_then_Retrieve (error:=unit)
                  ex_inmem (ex_id 2) (ex_id 1) None) H).
Defined.

(** A remove does not disturb the retrieve of another handle. *)
Lemma InMem_Remove_then_Retrieve_witness :
  ex_id 1 <> ex_id 2 /\
  (InMem.Retrieve (error:=unit) (ex_id 1)
     (InMem.Remove (error:=unit) (ex_id 2) ex_inmem).2).1
  = (InMem.Retrieve (error:=unit) (ex_id 1) ex_inmem).1.
Proof.
  assert (H : ex_id 1 <> ex_id 2) by (vm_compute; discriminate).
  split; [exact H|].
  exact (proj2 (proj2 (InMem_Remove_then_Retrieve (error:=unit)
                         ex_inmem (ex_id 2) (ex_id 1))) H).
Defined.

(** The size after storing two bytes under a new handle, and after removing
    the stored handle. *)
Lemma InMem_Size_step_witness :
  InMemReport.Size (InMem.Store (error:=unit) (ex_id 2) (Some [x01; x02])
                      ex_inmem).2
    = int_add (InMemReport.Size ex_inmem) 2 /\
  int_add (InMemReport.Size (InMem.Remove (error:=unit) (ex_id 1) ex_inmem).2) 2
    = InMemReport.Size ex_inmem.
Proof.
  split.
  - apply (proj1 (proj2 (InMem_Size_step (error:=unit) ex_inmem (ex_id 2)
                           (Some [x01; x02]) None))).
    vm_compute. reflexivity.
  - apply (proj2 (proj2 (InMem_Size_step (error:=unit) ex_inmem (ex_id 1)
                           None (Some [x00; x80])))).
    vm_compute. reflexivity.
Defined.

(** A pending store, read back. *)
Lemma Retrieve_after_pending_write_witness :
  autoCommit ex_empty = false /\
  Retrieve ex_DecodeSlab (ex_id 1) (Store ex_Encode (ex_id 1) (Some true) ex_empty).2
    = ((Some true, true, None), (Store ex_Encode (ex_id 1) (Some true) ex_empty).2).
Proof.
  split; [reflexivity|].
  exact (proj1 (proj2 (Retrieve_after_pending_write
                         ex_Encode ex_DecodeSlab ex_empty (ex_id 1) (Some true)
                         eq_refl))).
Defined.

(** A store and a remove, dropped. *)
Lemma DropDeltas_undoes_pending_writes_witness :
  autoCommit ex_empty = false /\
  deltas ex_empty = ∅ /\
  DropDeltas (run_Ops ex_Encode ex_ops ex_empty) = ex_empty.
Proof.
  split; [reflexivity|]. split; [reflexivity|].
  exact (proj2 (DropDeltas_undoes_pending_writes ex_Encode ex_ops ex_empty eq_refl)
               eq_refl).
Defined.

(** The second retrieve of a stored handle. *)
Lemma Retrieve_twice_witness :
  deltas ex_stored !! ex_id 1 = None /\
  (Retrieve ex_DecodeSlab (ex_id 1) ex_stored).1.2 = None /\
  (Retrieve ex_DecodeSlab (ex_id 1)
     (Retrieve ex_DecodeSlab (ex_id 1) ex_stored).2).1.1.2 = true.
Proof.
  assert (H1 : deltas ex_stored !! ex_id 1 = None) by (vm_compute; reflexivity).
  assert (H2 : (Retrieve ex_DecodeSlab (ex_id 1) ex_stored).1.2 = None)
    by (vm_compute; reflexivity).
  split; [exact H1|]. split; [exact H2|].
  rewrite (Retrieve_twice ex_DecodeSlab ex_stored (ex_id 1) H1 H2).
  reflexivity.
Defined.

(** The committed slab, retrieved. *)
Lemma Retrieve_after_Commit_witness :
  (Commit ex_Encode ex_pending).1 = None /\
  (Retrieve ex_DecodeSlab (ex_id 2) (Commit ex_Encode ex_pending).2).1
    = (Some true, true, None).
Proof.
  assert (H : (Commit ex_Encode ex_pending).1 = None) by (vm_compute; reflexivity).
  split; [exact H|].
  rewrite (Retrieve_after_Commit ex_Encode ex_DecodeSlab ex_pending (ex_id 2) true H).
  - reflexivity.
  - vm_compute. discriminate.
  - vm_compute. reflexivity.
Defined.

(** The handle removed by the commit, still retrieved from the cache. *)
Lemma Retrieve_after_committed_Remove_witness :
  (Commit ex_Encode ex_pending).1 = None /\
  segments (baseStorage (Commit ex_Encode ex_pending).2) !! ex_id 1 = None /\
  (Retrieve ex_DecodeSlab (ex_id 1) (Commit ex_Encode ex_pending).2).1
    = (Some true, true, None).
Proof.
  assert (H : (Commit ex_Encode ex_pending).1 = None) by (vm_compute; reflexivity).
  split; [exact H|]. split; [vm_compute; reflexivity|].
  rewrite (Retrieve_after_committed_Remove
             ex_Encode ex_DecodeSlab ex_pending (ex_id 1) (Some true) H).
  - reflexivity.
  - vm_compute. reflexivity.
  - vm_compute. reflexivity.
Defined.

(** A commit with nothing to commit, and a commit after a commit. *)
Lemma Commit_empty_deltas_witness :
  Commit ex_Encode ex_empty = (None, ex_empty) /\
  FastCommit ex_Encode 0 [] ex_empty = Some (None, ex_empty) /\
  Commit ex_Encode (Commit ex_Encode ex_pending).2
    = (None, (Commit ex_Encode ex_pending).2).
Proof.
  destruct (proj1 (Commit_empty_deltas ex_Encode ex_empty 0 []) eq_refl)
    as [H1 H2].
  split; [exact H1|]. split; [exact H2|].
  apply (proj2 (Commit_empty_deltas ex_Encode ex_pending 0 [])).
  vm_compute. reflexivity.
Defined.

(** Removed, stored again, not found. *)
Lemma Retrieve_after_auto_commit_Remove_Store_witness :
  autoCommit ex_auto = true /\
  (Retrieve ex_DecodeSlab (ex_id 1)
     (Store ex_Encode (ex_id 1) (Some true)
        (Remove (error:=unit) (ex_id 1) ex_auto).2).2).1
    = (None, false, None).
Proof.
  split; [reflexivity|].
  apply (Retrieve_after_auto_commit_Remove_Store
           ex_Encode ex_DecodeSlab ex_auto (ex_id 1) (Some true)).
  - reflexivity.
  - vm_compute. reflexivity.
  - vm_compute. reflexivity.
Defined.

(** The base storage after the commit of [ex_pending]. *)
Lemma Commit_persists_deltas_witness :
  (Commit ex_Encode ex_pending).1 = None /\
  segments (baseStorage (Commit ex_Encode ex_pending).2) !! ex_id 2
    = Some (ex_Encode (Some true)).1 /\
  segments (baseStorage (Commit ex_Encode ex_pending).2) !! ex_temp_id 1
    = segments (baseStorage ex_pending) !! ex_temp_id 1.
Proof.
  assert (H : (Commit ex_Encode ex_pending).1 = None) by (vm_compute; reflexivity).
  split; [exact H|]. split.
  - apply (proj1 (Commit_persists_deltas ex_Encode ex_pending (ex_id 2) H) true).
    + vm_compute. discriminate.
    + vm_compute. reflexivity.
  - apply (proj2 (proj2 (Commit_persists_deltas
                           ex_Encode ex_pending (ex_temp_id 1) H))).
    left. reflexivity.
Defined.

(** Committed, cache dropped, retrieved from the base storage. *)
Lemma Retrieve_after_Commit_and_DropCache_witness :
  (Commit ex_Encode ex_pending).1 = None /\
  (Retrieve ex_DecodeSlab (ex_id 2) (DropCache (Commit ex_Encode ex_pending).2)).1
    = (Some true, true, None).
Proof.
  assert (H : (Commit ex_Encode ex_pending).1 = None) by (vm_compute; reflexivity).
  split; [exact H|].
  apply (Retrieve_after_Commit_and_DropCache
           ex_Encode ex_DecodeSlab ex_pending (ex_id 2) true H).
  - vm_compute. discriminate.
  - vm_compute. reflexivity.
  - vm_compute. reflexivity.
Defined.

(** A first allocation is valid; the allocation at the wrap-around is not. *)
Lemma GenerateStorageID_Valid_witness :
  RawID.Valid (GenerateStorageID (error:=unit) ex_addr ex_empty).1.1 = None /\
  RawID.Valid (GenerateStorageID (error:=unit) AddressUndefined ex_wrapped).1.1
    = Some RawID.ErrStorageID.
Proof.
  split.
  - apply (proj1 (GenerateStorageID_Valid (error:=unit) ex_empty ex_addr)).
    + cbn. lia.
    + vm_compute. reflexivity.
  - apply (proj2 (GenerateStorageID_Valid (error:=unit) ex_wrapped ex_addr)).
    reflexivity.
Defined.

(** The key list of [ex_pending_logged]. *)
Lemma sortedOwnedDeltaKeys_spec_witness :
  NoDup (sortedOwnedDeltaKeys ex_pending_logged).
Proof.
  exact (proj1 (proj2 (sortedOwnedDeltaKeys_spec
                         ex_pending_logged
                         (map_to_list (deltas ex_pending_logged)).*1
                         (reflexivity _)))).
Defined.

(** A retrieve answered from the deltas makes no call. *)
Lemma Retrieve_base_calls_witness :
  is_Some (deltas ex_pending_logged !! ex_id 2) /\
  calls (baseStorage (Retrieve ex_DecodeSlab (ex_id 2) ex_pending_logged).2)
    = calls (baseStorage ex_pending_logged).
Proof.
  assert (H : is_Some (deltas ex_pending_logged !! ex_id 2)).
  { exists (Some true). vm_compute. reflexivity. }
  split; [exact H|].
  exact (proj1 (proj2 (Retrieve_base_calls ex_DecodeSlab ex_pending_logged
                         (ex_id 2))) (or_introl H)).
Defined.

Import Digester DigestWords.

(** Level 2 of the zero digester, asked for after level 1. *)
Lemma Digest_memo_transparent_witness :
  memo_sound ex_Sum256 zeroBasicDigester /\
  (Digest (E:=unit) ex_Sum256 2
     (Digest (E:=unit) ex_Sum256 1 zeroBasicDigester).2).1
    = (level_digest ex_Sum256 zeroBasicDigester 2, None).
Proof.
  assert (H : memo_sound ex_Sum256 zeroBasicDigester) by (by left).
  split; [exact H|].
  apply (Digest_memo_transparent (E:=unit) ex_Sum256 zeroBasicDigester 1 2 H).
  lia.
Defined.

(** The prefix of level 4 of the zero digester has four digests. *)
Lemma DigestPrefix_levels_witness :
  memo_sound ex_Sum256 zeroBasicDigester /\
  length (DigestPrefix (E:=unit) ex_Sum256 4 zeroBasicDigester).1.1 = 4%nat /\
  (DigestPrefix (E:=unit) ex_Sum256 5 zeroBasicDigester).1.2
    = Some (HashLevelError 5 4).
Proof.
  assert (H : memo_sound ex_Sum256 zeroBasicDigester) by (by left).
  split; [exact H|]. split.
  - rewrite (proj1 (DigestPrefix_levels (E:=unit) ex_Sum256 zeroBasicDigester 4 H))
      by lia.
    reflexivity.
  - rewrite (proj2 (DigestPrefix_levels (E:=unit) ex_Sum256 zeroBasicDigester 5 H))
      by lia.
    reflexivity.
Defined.

(** A builder whose first seed word is zero and whose second is not. *)
Lemma basicDigesterBuilder_Digest_errors_witness :
  k0 (SetSeed 0 11 newBasicDigesterBuilder) = 0 /\
  basicDigesterBuilder_Digest (E:=unit) ex_Hash64
    (SetSeed 0 11 newBasicDigesterBuilder) ex_hip 5 []
  = ((None, Some HashSeedUninitializedError), []).
Proof.
  split; [reflexivity|].
  exact (proj1 (basicDigesterBuilder_Digest_errors (E:=unit) ex_Hash64
                  (SetSeed 0 11 newBasicDigesterBuilder)
                  (SetSeed 0 11 newBasicDigesterBuilder) ex_hip 5 [])
               eq_refl).
Defined.

(** The digests of the digester built for the value 5. *)
Lemma basicDigesterBuilder_Digest_digests_witness :
  exists bd,
    (basicDigesterBuilder_Digest (E:=unit) ex_Hash64 ex_builder ex_hip 5 []).1
      = (Some bd, None) /\
    (Digest (E:=unit) ex_Sum256 0 bd).1 = (8, None).
Proof.
  destruct (basicDigesterBuilder_Digest_digests (E:=unit) ex_Hash64 ex_Sum256
              ex_builder ex_hip 5 [] (Some [x05]))
    as (bd & Hb & _ & H0 & _).
  - constructor.
  - vm_compute. discriminate.
  - reflexivity.
  - exists bd. split; [exact Hb|]. rewrite H0. reflexivity.
Defined.

(** The handle of [ex_basic] is listed. *)
Lemma Basic_StorageIDs_witness :
  is_Some (Basic.Slabs ex_basic !! ex_id 1) /\
  ex_id 1 ∈ BasicMore.StorageIDs ex_basic.
Proof.
  assert (H : is_Some (Basic.Slabs ex_basic !! ex_id 1)).
  { exists (Some true). vm_compute. reflexivity. }
  split; [exact H|].
  exact (proj2 (proj1 (proj2 (Basic_StorageIDs ex_basic)) (ex_id 1)) H).
Defined.

(** [ex_basic] encoded and loaded into an empty storage. *)
Lemma Basic_Encode_then_Load_witness :
  (BasicMore.BasicEncode ex_Encode ex_basic).2 = None /\
  forall loaded,
    loaded ≡ₚ map_to_list
                ((fun slab => (ex_Encode slab).1) <$> Basic.Slabs ex_basic) ->
    BasicMore.Load_loop ex_DecodeSlab loaded ex_basic_empty
    = (None, Basic.mkBasicSlabStorage (Basic.Slabs ex_basic) ∅).
Proof.
  destruct (proj1 (Basic_Encode_then_Load ex_Encode ex_DecodeSlab
                     ex_basic ex_basic_empty
                     (map_to_list (Basic.Slabs ex_basic)) (reflexivity _)))
    as [H1 H2].
  - intros id slab Hs. unfold ex_basic in Hs. cbn [Basic.Slabs] in Hs.
    apply lookup_singleton_Some in Hs as [<- <-]. split; reflexivity.
  - split.
    + unfold BasicMore.BasicEncode. rewrite H1. reflexivity.
    + exact (H2 eq_refl).
Defined.

(** The ledger key of a handle. *)
Lemma prefixedKey_injective_witness :
  LedgerStore.prefixedKey (ex_id 1) = x24 :: RawID.to_list8 (PutUint64 1) /\
  ex_id 1 = ex_id 1.
Proof.
  split; [reflexivity|].
  exact (proj2 (proj2 (prefixedKey_injective (ex_id 1) (ex_id 1)))
               eq_refl eq_refl).
Defined.
